(** * PDF black/white converter: page ranges, pipeline and batch driver

    A shallow embedding of [src/main.py].  Python values are modelled as the
    program has them: [int] as [Z], [str] as the list of its characters
    (code points below 256, so that a character is an [ascii]), [bytes] as a
    list of bytes, the exception raised by [int()] as an error result, the
    file system as a finite map from paths to file contents.  The map
    holds the files the program reads and writes by path: the pdf files
    and the settings file.  The file of the [logging] module and its
    rotated copies are not in it; what the logger appends to them are the
    messages of the trace. *)

From Stdlib Require Import ZArith Ascii String DecimalString.
From stdpp Require Import base list sorting gmap strings.

Local Open Scope Z_scope.

(** ** Results of code that may raise *)

Inductive exn : Type :=
| ValueError
| IndexError
| OSError
| RecursionError.

Inductive result (A : Type) : Type :=
| Ok (a : A)
| Raise (e : exn).
Arguments Ok {A} a.
Arguments Raise {A} e.

(** Sequencing: an exception raised by the first computation propagates. *)
#[global] Instance result_bind : MBind result := fun A B k r =>
  match r with
  | Ok a => k a
  | Raise e => Raise e
  end.

(** ** Strings and bytes *)

(** A Python [str]: its characters in order.  String literals are read
    through the coercion. *)
Definition str : Type := list ascii.

Definition of_string (s : string) : str := list_ascii_of_string s.
Coercion of_string : string >-> str.

Definition bytes : Type := list Byte.byte.

(** ** The [str] methods used by the program *)

Module PyStr.

Definition code (c : ascii) : N := N_of_ascii c.

(** [str.isspace] on one character, for code points below 256:
    TAB, LF, VT, FF, CR, FS, GS, RS, US, SPACE, NEL and NBSP. *)
Definition isspace (c : ascii) : bool :=
  let n := code c in
  ((9 <=? n) && (n <=? 13))%N || ((28 <=? n) && (n <=? 32))%N
  || (n =? 133)%N || (n =? 160)%N.

Fixpoint lstrip (s : str) : str :=
  match s with
  | c :: s' => if isspace c then lstrip s' else s
  | [] => []
  end.

Definition rstrip (s : str) : str := rev (lstrip (rev s)).

(** [s.strip()] *)
Definition strip (s : str) : str := rstrip (lstrip s).

(** [sep in s] for a one-character [sep] *)
Definition contains (sep : ascii) (s : str) : bool :=
  existsb (Ascii.eqb sep) s.

(** [s.split(sep)] for a one-character [sep] *)
Fixpoint split (sep : ascii) (s : str) : list str :=
  match s with
  | [] => [[]]
  | c :: s' =>
      if Ascii.eqb c sep then [] :: split sep s'
      else match split sep s' with
           | w :: ws => (c :: w) :: ws
           | [] => [[c]]
           end
  end.

Definition isdigit (c : ascii) : bool :=
  ((48 <=? code c) && (code c <=? 57))%N.

Definition digit_value (c : ascii) : Z := Z.of_N (code c) - 48.

(** The digits of a decimal literal: one underscore is allowed between
    two digits, nowhere else. *)
Fixpoint digits (acc : Z) (after_digit : bool) (s : str) : option Z :=
  match s with
  | [] => if after_digit then Some acc else None
  | c :: s' =>
      if isdigit c then digits (10 * acc + digit_value c) true s'
      else if Ascii.eqb c "_" then
             if after_digit then digits acc false s' else None
      else None
  end.

Definition literal (s : str) : option Z :=
  match s with
  | "+"%char :: s' => digits 0 false s'
  | "-"%char :: s' => Z.opp <$> digits 0 false s'
  | _ => digits 0 false s
  end.

(** [int(s)]: surrounding white space is ignored, then an optional sign
    and the digits; anything else raises [ValueError].  The interpreter's
    cap on the number of digits of a literal is left out. *)
Definition int (s : str) : result Z :=
  match literal (strip s) with
  | Some n => Ok n
  | None => Raise ValueError
  end.

(** Truth value of a string: non-empty. *)
Definition truthy (s : str) : bool :=
  match s with
  | [] => false
  | _ => true
  end.

End PyStr.

(** ** Built-ins on integers and lists *)

(** [range(a, b)] *)
Definition range (a b : Z) : list Z :=
  (fun i => a + Z.of_nat i) <$> seq 0 (Z.to_nat (b - a)).

(** [set(pages)] *)
Definition set_of (pages : list Z) : gset Z := list_to_set pages.

(** [sorted(s)] for a set of integers *)
Definition sorted (s : gset Z) : list Z := merge_sort Z.le (elements s).

(** ** [parse_page_range] *)

Section ParsePageRange.
Import PyStr.

Variable total_pages : Z.

(** One round of the [for part in parts] loop: [pages] is the list built
    so far. *)
Definition parse_part (pages : list Z) (part : str) : result (list Z) :=
  let part := strip part in
  if contains "-" part then
    match split "-" part with
    | [start; end_] =>
        start ← (if truthy (strip start) then int (strip start) else Ok 1);
        end_ ← (if truthy (strip end_) then int (strip end_)
                else Ok total_pages);
        let start := Z.max 1 start in
        let end_ := Z.min total_pages end_ in
        Ok (pages ++ range (start - 1) end_)
    | _ => Ok pages
    end
  else if truthy (strip part) then
    match int (strip part) with
    | Ok page =>
        if (1 <=? page) && (page <=? total_pages)
        then Ok (pages ++ [page - 1])
        else Ok pages
    | Raise ValueError => Ok pages
    | Raise e => Raise e
    end
  else Ok pages.

Fixpoint parse_parts (pages : list Z) (parts : list str)
  : result (list Z) :=
  match parts with
  | [] => Ok pages
  | part :: parts' =>
      pages' ← parse_part pages part;
      parse_parts pages' parts'
  end.

Definition parse_page_range_body (page_range_str : str)
  : result (list Z) :=
  if negb (truthy (strip page_range_str)) then Ok (range 0 total_pages)
  else
    pages ← parse_parts [] (split "," page_range_str);
    Ok (sorted (set_of pages)).

End ParsePageRange.

Definition parse_page_range (page_range_str : str) (total_pages : Z)
  : result (list Z) :=
  parse_page_range_body total_pages page_range_str.


(** ** [os.path] (the POSIX flavour) *)

Module posixpath.
Import PyStr.

Definition sep : ascii := "/".
Definition extsep : ascii := ".".

(** [s.rfind(c)]: the last index of [c] in [s], or -1.  [i] is the index
    of the head of [s], [last] the last index found so far. *)
Fixpoint rfind_from (c : ascii) (i last : Z) (s : str) : Z :=
  match s with
  | [] => last
  | x :: s' => rfind_from c (i + 1) (if Ascii.eqb x c then i else last) s'
  end.

Definition rfind (c : ascii) (s : str) : Z := rfind_from c 0 (-1) s.

(** The slices [s[:i]], [s[i:]] and [s[i:j]] for [0 <= i]. *)
Definition upto (i : Z) (s : str) : str := take (Z.to_nat i) s.
Definition from (i : Z) (s : str) : str := drop (Z.to_nat i) s.
Definition slice (i j : Z) (s : str) : str := upto (j - i) (from i s).

(** [head == sep*len(head)] *)
Definition all_sep (head : str) : bool := forallb (Ascii.eqb sep) head.

Fixpoint lstrip_sep (s : str) : str :=
  match s with
  | c :: s' => if Ascii.eqb c sep then lstrip_sep s' else s
  | [] => []
  end.

(** [head.rstrip(sep)] *)
Definition rstrip_sep (head : str) : str := rev (lstrip_sep (rev head)).

Definition startswith_sep (s : str) : bool :=
  match s with
  | c :: _ => Ascii.eqb c sep
  | [] => false
  end.

Definition endswith_sep (s : str) : bool := startswith_sep (rev s).

Definition basename (p : str) : str :=
  let i := rfind sep p + 1 in
  from i p.

Definition dirname (p : str) : str :=
  let i := rfind sep p + 1 in
  let head := upto i p in
  if truthy head && negb (all_sep head) then rstrip_sep head else head.

(** [join(a, b)] with one component after [a] *)
Definition join (a b : str) : str :=
  if startswith_sep b then b
  else if negb (truthy a) || endswith_sep a then a ++ b
  else a ++ sep :: b.

(** The [while] loop of [splitext]: is there a character other than a
    dot among the characters from the start of the file name up to the
    last dot? *)
Fixpoint past_leading_dots (name : str) : bool :=
  match name with
  | [] => false
  | c :: name' =>
      if negb (Ascii.eqb c extsep) then true else past_leading_dots name'
  end.

Definition splitext (p : str) : str * str :=
  let sepIndex := rfind sep p in
  let dotIndex := rfind extsep p in
  if (sepIndex <? dotIndex)
     && past_leading_dots (slice (sepIndex + 1) dotIndex p)
  then (upto dotIndex p, from dotIndex p)
  else (p, []).

End posixpath.

(** ** Images and the tone transform *)

(** A single-band image ([L] or [1]): its size and one value per pixel. *)
Record image : Type := Image {
  width : Z;
  height : Z;
  pixels : list Z
}.

Definition black : Z := 0.
Definition white : Z := 255.

(** [Image.point(f, mode)] on an 8-bit image: [f] is tabulated over
    [range(256)] and every pixel is looked up in the table. *)
Definition lookup_table (f : Z -> Z) : list Z := f <$> range 0 256.

Definition point_pixel (lut : list Z) (v : Z) : Z :=
  default 0 (lut !! Z.to_nat v).

Definition point (f : Z -> Z) (img : image) : image :=
  Image (width img) (height img) (point_pixel (lookup_table f) <$> pixels img).

(** [gray_img.point(lambda x: 0 if x < threshold else 255, '1')] *)
Definition to_bitonal (threshold : Z) (gray_img : image) : image :=
  point (fun x => if x <? threshold then 0 else 255) gray_img.

(** ** What the program tells its user *)

Inductive message : Type :=
| MsgChecking (name : str)
| MsgNotFound (path : str)
| MsgNoPages
| MsgPage (number num_pages page : Z)
| MsgSuccess (input output : str) (size : Z)
| MsgError
| MsgSkip (name : str)
| MsgRangeError
| MsgAllDone
| MsgNoFiles.

(** The observable steps of a run, in the order they happen.  A progress
    report carries its percentage as [num / den * 100]. *)
Inductive event : Type :=
| Progress (num den : Z) (m : message)
| Log (m : message)
| LoadPage (page_num : Z)
| AskYesNo (name : str) (answer : bool)
| OpenFile (path : str).

(** ** The libraries behind the pipeline

    PyMuPDF, Pillow and img2pdf are outside the repository; a [None] is a
    raised exception. *)
Record backend : Type := Backend {
  document : Type;
  rgb_image : Type;
  (** [fitz.open(path)] on the contents of the file *)
  fitz_open : bytes -> option document;
  (** [len(doc)] *)
  page_count : document -> Z;
  (** [load_page], [get_pixmap] at [dpi/72], [tobytes] and [Image.open] *)
  get_pixmap : document -> Z -> Z -> option rgb_image;
  (** [img.convert('L')] *)
  convert_L : rgb_image -> image;
  (** [save(format='TIFF', compression='group4')] *)
  save_tiff_group4 : image -> option bytes;
  (** [save(format='JPEG', quality=compression)] *)
  save_jpeg : image -> Z -> option bytes;
  (** [img2pdf.convert(bw_images)] *)
  img2pdf_convert : list bytes -> option bytes;
  (** does [open(path, "wb")] succeed? *)
  can_open_wb : str -> bool
}.

(** The file system: the contents of every existing file. *)
Abbreviation filesystem := (gmap str bytes).

(** ** [convert_pdf_to_bw] *)

Section Pipeline.
Context (B : backend).

Definition is_bw (mode : str) : bool := bool_decide (mode = of_string "bw").

(** The body of [with Image.open(...) as img]: transform and encode. *)
Definition encode_page (threshold : Z) (mode : str) (compression : Z)
    (img : rgb_image B) : option bytes :=
  if is_bw mode then
    let gray_img := convert_L B img in
    let bw_img := to_bitonal threshold gray_img in
    save_tiff_group4 B bw_img
  else
    let gray_img := convert_L B img in
    save_jpeg B gray_img compression.

(** The [for idx, page_num in enumerate(page_range)] loop.  [None] is an
    exception that leaves the loop. *)
Fixpoint process_pages (doc : document B) (threshold dpi : Z) (mode : str)
    (compression : Z) (num_pages idx : Z) (page_range : list Z)
    (bw_images : list bytes) (tr : list event)
  : option (list bytes) * list event :=
  match page_range with
  | [] => (Some bw_images, tr)
  | page_num :: rest =>
      let tr := tr ++ [Progress (idx + 1) num_pages
                         (MsgPage (idx + 1) num_pages (page_num + 1));
                       LoadPage page_num] in
      match get_pixmap B doc page_num dpi with
      | None => (None, tr)
      | Some img =>
          match encode_page threshold mode compression img with
          | None => (None, tr)
          | Some img_bytes =>
              process_pages doc threshold dpi mode compression num_pages
                (idx + 1) rest (bw_images ++ [img_bytes]) tr
          end
      end
  end.

(** The selection made at the top of the [try] block. *)
Definition select_pages (page_range : option (list Z)) (total_pages : Z)
  : list Z :=
  match page_range with
  | None => range 0 total_pages
  | Some page_range => filter (fun p => p < total_pages) page_range
  end.

(** The pipeline for one file, with a progress callback as the caller
    supplies one.  The result is the returned flag, the file system and
    the events after the call. *)
Definition convert_pdf_to_bw (input_pdf output_pdf : str)
    (threshold dpi : Z) (page_range : option (list Z)) (mode : str)
    (compression : Z) (files : filesystem) (tr : list event)
  : bool * filesystem * list event :=
  let tr := tr ++ [Progress 0 1 (MsgChecking (posixpath.basename input_pdf))] in
  match files !! input_pdf with
  | None => (false, files, tr ++ [Progress 0 1 (MsgNotFound input_pdf)])
  | Some content =>
      match fitz_open B content with
      | None => (false, files, tr ++ [Progress 0 1 MsgError])
      | Some doc =>
          let total_pages := page_count B doc in
          let page_range := select_pages page_range total_pages in
          match page_range with
          | [] => (false, files, tr ++ [Progress 0 1 MsgNoPages])
          | _ =>
              let num_pages := Z.of_nat (length page_range) in
              match process_pages doc threshold dpi mode compression
                      num_pages 0 page_range [] tr with
              | (None, tr) => (false, files, tr ++ [Progress 0 1 MsgError])
              | (Some bw_images, tr) =>
                  if can_open_wb B output_pdf then
                    let files := <[output_pdf := []]> files in
                    match img2pdf_convert B bw_images with
                    | None => (false, files, tr ++ [Progress 0 1 MsgError])
                    | Some pdf =>
                        let files := <[output_pdf := pdf]> files in
                        (true, files,
                         tr ++ [Progress 1 1
                                  (MsgSuccess (posixpath.basename input_pdf)
                                     (posixpath.basename output_pdf)
                                     (Z.of_nat (length pdf)))])
                    end
                  else (false, files, tr ++ [Progress 0 1 MsgError])
              end
          end
      end
  end.

End Pipeline.

(** ** The settings file *)

(** A value of a setting: the program stores integers, booleans and
    strings; anything else a file may hold is [VOther]. *)
Inductive value : Type :=
| VInt (n : Z)
| VBool (b : bool)
| VStr (s : str)
| VOther.

#[global] Instance value_eq_dec : EqDecision value.
Proof. solve_decision. Defined.

(** What [json.load] returns: an object, an array, a string, or a
    number, boolean or null. *)
Inductive json : Type :=
| JObject (items : gmap str value)
| JArray (elems : list value)
| JText (s : str)
| JScalar.

(** [json.load] on the contents of a file ([None]: it raises), and
    [json.dump]: the bytes it writes and whether it returns normally.
    [settings_writable] says whether the settings file can be opened for
    writing. *)
Record json_codec : Type := JsonCodec {
  json_load : bytes → option json;
  json_dump : gmap str value → bytes * bool;
  settings_writable : bool
}.

Definition SETTINGS_FILE : str := of_string "pdf_converter_settings.json".

(** The items of [DEFAULT_SETTINGS], in the order of the dictionary. *)
Definition DEFAULT_SETTINGS : list (str * value) :=
  [ (of_string "threshold", VInt 180);
    (of_string "dpi", VInt 300);
    (of_string "open_after", VBool true);
    (of_string "output_dir", VStr []);
    (of_string "output_suffix", VStr (of_string "_SW"));
    (of_string "mode", VStr (of_string "bw"));
    (of_string "page_range", VStr []);
    (of_string "overwrite", VStr (of_string "ask"));
    (of_string "compression", VInt 95) ].

(** [DEFAULT_SETTINGS.copy()] *)
Definition default_settings : gmap str value := list_to_map DEFAULT_SETTINGS.

(** [a in b] for two strings: [a] occurs in [b]. *)
Fixpoint startswith (a b : str) : bool :=
  match a, b with
  | [], _ => true
  | x :: a', y :: b' => Ascii.eqb x y && startswith a' b'
  | _ :: _, [] => false
  end.

Fixpoint occurs_in (a b : str) : bool :=
  startswith a b
  || match b with
     | [] => false
     | _ :: b' => occurs_in a b'
     end.

(** One round of the loop over the default items: [None] is an exception,
    which the bare [except] of [load_settings] catches. *)
Definition add_default (settings : json) (item : str * value) : option json :=
  let '(key, default_value) := item in
  match settings with
  | JObject items =>
      match items !! key with
      | None => Some (JObject (<[key := default_value]> items))
      | Some _ => Some settings
      end
  | JArray elems =>
      if bool_decide (VStr key ∈ elems) then Some settings else None
  | JText s =>
      if occurs_in key s then Some settings else None
  | JScalar => None
  end.

Fixpoint add_defaults (settings : json) (items : list (str * value))
  : option json :=
  match items with
  | [] => Some settings
  | item :: items' =>
      settings' ← add_default settings item;
      add_defaults settings' items'
  end.

Definition load_settings (C : json_codec) (fs : filesystem) : json :=
  match fs !! SETTINGS_FILE with
  | Some content =>
      match json_load C content ≫= fun settings =>
              add_defaults settings DEFAULT_SETTINGS with
      | Some settings => settings
      | None => JObject default_settings
      end
  | None => JObject default_settings
  end.

(** [save_settings]: the file is opened for writing, which empties it,
    and holds what [json.dump] wrote; the flag says whether the call
    returned normally. *)
Definition save_settings (C : json_codec) (settings : gmap str value)
    (fs : filesystem) : bool * filesystem :=
  if settings_writable C then
    let '(written, ok) := json_dump C settings in
    (ok, <[SETTINGS_FILE := written]> fs)
  else (false, fs).

(** A codec that writes one byte for the settings it is made for and
    reads them back from it. *)
Definition one_byte_codec (settings : gmap str value) : json_codec :=
  {| json_load := fun content =>
       match content with
       | [Byte.x7b] => Some (JObject settings)
       | _ => None
       end;
     json_dump := fun _ => ([Byte.x7b], true);
     settings_writable := true |}.

(** ** [PDFConverterApp]: the batch driver *)

(** What the form holds while a batch runs: the list of input files, the
    entries and variables of the widgets, and [self.settings].
    [overwrite] is [overwrite_var], which [save_app_settings] stores as
    [settings['overwrite']] before the first file is taken up;
    [dpi_value] is the string variable as the user left it. *)
Record form : Type := Form {
  input_files : list str;
  output_dir_entry : str;
  suffix_entry : str;
  timestamp_var : bool;
  page_range_entry : str;
  overwrite : str;
  mode_var : str;
  threshold_value : Z;
  dpi_value : str;
  compression_var : Z;
  open_after_var : bool;
  settings : gmap str value
}.

(** What changes while a batch runs. *)
Record state : Type := State {
  current_file_index : nat;
  files : filesystem;
  trace : list event
}.

(** The user, the clock and the interpreter: the answer to the overwrite
    question and the time stamp, for the file at a given index, and the
    number of calls of [convert_next_file] from within one another that
    the recursion limit of the interpreter leaves room for (the limit is
    1000 frames unless it has been changed; the frames of the callback
    below the first call and of the helpers count against it). *)
Record host : Type := Host {
  askyesno : nat -> bool;
  now : nat -> str;
  recursion_limit : nat
}.

(** How a chain of calls of the driver ends: the last call returns, or an
    exception leaves the chain; either way in the state reached. *)
Inductive outcome : Type :=
| Returned (st : state)
| Raised (e : exn) (st : state).

Definition state_of (r : outcome) : state :=
  match r with
  | Returned st | Raised _ st => st
  end.

Section App.
Context (B : backend) (C : json_codec) (H : host) (F : form).

Definition generate_output_path (index : nat) (input_path : str) : str :=
  let output_dir :=
    if PyStr.truthy (PyStr.strip (output_dir_entry F))
    then PyStr.strip (output_dir_entry F)
    else posixpath.dirname input_path in
  let filename := posixpath.basename input_path in
  let '(base, ext) := posixpath.splitext filename in
  let suffix := PyStr.strip (suffix_entry F) in
  let base := if PyStr.truthy suffix then base ++ suffix else base in
  let base :=
    if timestamp_var F then base ++ "_"%char :: now H index else base in
  posixpath.join output_dir (base ++ ext).

(** [self.settings] after the assignments of [save_app_settings], the
    last one outermost. *)
Definition app_settings (dpi : Z) : gmap str value :=
  <[of_string "compression" := VInt (compression_var F)]>
    (<[of_string "overwrite" := VStr (overwrite F)]>
      (<[of_string "mode" := VStr (mode_var F)]>
        (<[of_string "page_range" := VStr (PyStr.strip (page_range_entry F))]>
          (<[of_string "output_suffix" := VStr (PyStr.strip (suffix_entry F))]>
            (<[of_string "output_dir"
               := VStr (PyStr.strip (output_dir_entry F))]>
              (<[of_string "open_after" := VBool (open_after_var F)]>
                (<[of_string "dpi" := VInt dpi]>
                  (<[of_string "threshold" := VInt (threshold_value F)]>
                    (settings F))))))))).

(** [save_app_settings]: the exception that leaves the call, if one
    does, and the file system after it.  [int()] raises before the file
    is touched; a failure to open or to write the file is an
    [OSError]. *)
Definition save_app_settings (fs : filesystem) : option exn * filesystem :=
  match PyStr.int (dpi_value F) with
  | Raise e => (Some e, fs)
  | Ok dpi =>
      let '(ok, fs) := save_settings C (app_settings dpi) fs in
      (if ok then None else Some OSError, fs)
  end.

(** The "Seitenbereich analysieren" block of [convert_next_file]. *)
Definition analyse_page_range (input_path : str) (fs : filesystem)
  : option (list Z) * list event :=
  let page_range_str := PyStr.strip (page_range_entry F) in
  if PyStr.truthy page_range_str then
    match fs !! input_path ≫= fitz_open B with
    | None => (None, [Log MsgRangeError])
    | Some doc =>
        match parse_page_range page_range_str (page_count B doc) with
        | Ok page_range => (Some page_range, [])
        | Raise _ => (None, [Log MsgRangeError])
        end
    end
  else (None, []).

(** [run_conversion], up to the increment of the index.  [int()] is
    applied to the resolution before the pipeline is called; when it
    raises, the worker thread ends there and nothing calls
    [convert_next_file] again. *)
Definition run_conversion (input_path output_path : str)
    (page_range : option (list Z)) (st : state) : outcome :=
  match PyStr.int (dpi_value F) with
  | Raise e => Raised e st
  | Ok dpi =>
      let '(success, fs, tr) :=
        convert_pdf_to_bw B input_path output_path (threshold_value F)
          dpi page_range (mode_var F) (compression_var F)
          (files st) (trace st) in
      let tr :=
        if success && open_after_var F then tr ++ [OpenFile output_path]
        else tr in
      Returned (State (S (current_file_index st)) fs tr)
  end.

(** The two "Überspringen" branches. *)
Definition skip_file (input_path : str) (tr : list event) (st : state)
  : state :=
  State (S (current_file_index st)) (files st)
    (tr ++ [Log (MsgSkip (posixpath.basename input_path))]).

Definition is_ask : bool := bool_decide (overwrite F = of_string "ask").
Definition is_skip : bool := bool_decide (overwrite F = of_string "skip").

(** [convert_next_file] with the calls that follow it.  After a run of
    the pipeline the next call is scheduled with [root.after] and starts
    on a fresh stack; in the two "Überspringen" branches the method calls
    itself, one frame deeper.  [depth] counts the calls the current one
    is nested in; a call that the recursion limit leaves no room for
    raises [RecursionError], which ends the chain.  [total_files] is the
    count [start_conversion] took; [fuel] bounds the number of calls,
    [None] means it ran out. *)
Fixpoint convert_next_file (fuel : nat) (depth : nat) (total_files : nat)
    (st : state) : option outcome :=
  match fuel with
  | O => None
  | S fuel =>
      if bool_decide (recursion_limit H ≤ depth)%nat then
        Some (Raised RecursionError st)
      else if bool_decide (total_files ≤ current_file_index st)%nat then
        Some (Returned (State (current_file_index st) (files st)
                          (trace st ++ [Progress 1 1 MsgAllDone])))
      else
        match input_files F !! current_file_index st with
        | None => Some (Raised IndexError st)
        | Some input_path =>
            let index := current_file_index st in
            let output_path := generate_output_path index input_path in
            let convert (tr : list event) :=
              let '(page_range, log) :=
                analyse_page_range input_path (files st) in
              match run_conversion input_path output_path page_range
                      (State index (files st) (tr ++ log)) with
              | Returned st' => convert_next_file fuel 0 total_files st'
              | Raised e st' => Some (Raised e st')
              end in
            match files st !! output_path with
            | Some _ =>
                if is_ask then
                  let response := askyesno H index in
                  let tr := trace st
                    ++ [AskYesNo (posixpath.basename output_path) response] in
                  if negb response then
                    convert_next_file fuel (S depth) total_files
                      (skip_file input_path tr st)
                  else convert tr
                else if is_skip then
                  convert_next_file fuel (S depth) total_files
                    (skip_file input_path (trace st) st)
                else convert (trace st)
            | None => convert (trace st)
            end
        end
  end.

(** [start_conversion] on a file system [fs]: the warning when no file
    is chosen; else the settings are saved and the first call of
    [convert_next_file] is made. *)
Definition start_conversion (fuel : nat) (fs : filesystem)
  : option outcome :=
  match input_files F with
  | [] => Some (Returned (State 0 fs [Log MsgNoFiles]))
  | _ =>
      match save_app_settings fs with
      | (Some e, fs) => Some (Raised e (State 0 fs []))
      | (None, fs) =>
          convert_next_file fuel 0 (length (input_files F)) (State 0 fs [])
      end
  end.

End App.

(** What a trace says about the files of the batch: each run of the
    pipeline opens with its "Überprüfe Datei" report, each skipped file
    leaves its "Überspringen" line. *)
Inductive attempt : Type :=
| Converted (name : str)
| Skipped (name : str).

Definition attempt_of (e : event) : option attempt :=
  match e with
  | Progress _ _ (MsgChecking name) => Some (Converted name)
  | Log (MsgSkip name) => Some (Skipped name)
  | _ => None
  end.

Definition attempts (tr : list event) : list attempt :=
  omap attempt_of tr.

(** A file of the batch has been taken up: its pipeline ran, or it was
    skipped. *)
Definition attempted (input_path : str) (a : attempt) : Prop :=
  a = Converted (posixpath.basename input_path)
  ∨ a = Skipped (posixpath.basename input_path).

(** An index that lies inside a document of [total_pages] pages. *)
Definition in_document (total_pages : Z) (i : Z) : Prop :=
  0 ≤ i < total_pages.

(** The pages a trace rasterized. *)
Definition rasterized (tr : list event) : list Z :=
  omap (fun e => match e with LoadPage p => Some p | _ => None end) tr.

(** Two paths name the same file when they differ only in the number of
    slashes between components: path resolution reads a run of slashes as
    one. *)
Fixpoint squeeze (p : str) : str :=
  match p with
  | [] => []
  | c :: p' =>
      match p' with
      | c' :: _ =>
          if Ascii.eqb c posixpath.sep && Ascii.eqb c' posixpath.sep
          then squeeze p'
          else c :: squeeze p'
      | [] => [c]
      end
  end.

(** Does the path hold two slashes in a row? *)
Fixpoint double_sep (p : str) : bool :=
  match p with
  | [] => false
  | c :: p' =>
      match p' with
      | c' :: _ =>
          Ascii.eqb c posixpath.sep && Ascii.eqb c' posixpath.sep
          || double_sep p'
      | [] => false
      end
  end.

(** The part of a path up to and with its last slash: the directory of
    the file as the path spells it. *)
Definition directory_part (p : str) : str :=
  posixpath.upto (posixpath.rfind posixpath.sep p + 1) p.

(** The directory [d] is the directory of the file [p], whether or not
    [d] is written with a slash at its end, and whatever the number of
    slashes between the components. *)
Definition names_directory_of (d p : str) : Prop :=
  squeeze (d ++ [posixpath.sep]) = squeeze (directory_part p).

(** The settings under which a file is converted in place: the output
    directory blank or the input's own, no suffix, no time stamp. *)
Definition in_place (F : form) (input_path : str) : Prop :=
  (PyStr.strip (output_dir_entry F) = []
   ∨ names_directory_of (PyStr.strip (output_dir_entry F)) input_path)
  ∧ PyStr.strip (suffix_entry F) = []
  ∧ timestamp_var F = false.

(** The encoded pages of a request, stage by stage: the input is read and
    opened, the pages are selected, and each is rasterized, transformed
    and encoded in turn.  [None] when one of these stages fails or no page
    is selected. *)
Definition encoded_pages (B : backend) (input_pdf : str) (threshold dpi : Z)
    (page_range : option (list Z)) (mode : str) (compression : Z)
    (fs : filesystem) : option (list bytes) :=
  content ← fs !! input_pdf;
  doc ← fitz_open B content;
  let pages := select_pages page_range (page_count B doc) in
  if bool_decide (pages = []) then None
  else mapM (fun page_num =>
               get_pixmap B doc page_num dpi
                 ≫= encode_page B threshold mode compression) pages.

(** ** Small instances of the libraries, the host and the form

    A document is the list of its pages, one byte each; a page renders to
    a single pixel and encodes to that byte.  [assembles] says whether
    [img2pdf.convert] succeeds. *)
Definition byte_document (assembles : bool) : backend :=
  {| document := bytes;
     rgb_image := Byte.byte;
     fitz_open := fun content =>
       match content with [] => None | _ => Some content end;
     page_count := fun doc => Z.of_nat (length doc);
     get_pixmap := fun doc page_num dpi =>
       if bool_decide (0 ≤ page_num) then doc !! Z.to_nat page_num else None;
     convert_L := fun b => Image 1 1 [Z.of_N (Byte.to_N b)];
     save_tiff_group4 := fun img =>
       Some ((fun v => if v =? 0 then Byte.x00 else Byte.xff) <$> pixels img);
     save_jpeg := fun img quality =>
       Some ((fun v => default Byte.x00 (Byte.of_N (Z.to_N v))) <$> pixels img);
     img2pdf_convert := fun imgs =>
       if assembles then Some (concat imgs) else None;
     can_open_wb := fun _ => true |}.

Definition quiet_host : host :=
  {| askyesno := fun _ => false;
     now := fun _ => of_string "20240101_120000";
     recursion_limit := 1000 |}.

Definition in_place_form (policy : str) (inputs : list str) : form :=
  {| input_files := inputs;
     output_dir_entry := [];
     suffix_entry := [];
     timestamp_var := false;
     page_range_entry := [];
     overwrite := policy;
     mode_var := of_string "bw";
     threshold_value := 180;
     dpi_value := of_string "300";
     compression_var := 95;
     open_after_var := false;
     settings := default_settings |}.

Definition two_files : filesystem :=
  {[ of_string "in.pdf" := [Byte.x10; Byte.xc8];
     of_string "out.pdf" := [Byte.x25; Byte.x50] ]}.

(** A form that names the directory of its input as the output
    directory, with a slash at its end. *)
Definition home_form (policy : str) : form :=
  {| input_files := [of_string "/home/u/scan.pdf"];
     output_dir_entry := of_string "/home/u/";
     suffix_entry := of_string " ";
     timestamp_var := false;
     page_range_entry := [];
     overwrite := policy;
     mode_var := of_string "bw";
     threshold_value := 180;
     dpi_value := of_string "300";
     compression_var := 95;
     open_after_var := false;
     settings := default_settings |}.

Definition home_files : filesystem :=
  {[ of_string "/home/u/scan.pdf" := [Byte.x10; Byte.xc8] ]}.

(** The file name [generate_output_path] composes: the root of the
    input's name, the suffix, the time stamp and the extension. *)
Definition output_name (H : host) (F : form) (index : nat) (input_path : str)
  : str :=
  (posixpath.splitext (posixpath.basename input_path)).1
  ++ PyStr.strip (suffix_entry F)
  ++ (if timestamp_var F then "_"%char :: now H index else [])
  ++ (posixpath.splitext (posixpath.basename input_path)).2.

(** A form that sends its output to a directory of its own, with a suffix
    and a time stamp. *)
Definition archive_form (page_range : str) (inputs : list str) : form :=
  {| input_files := inputs;
     output_dir_entry := of_string " /archive ";
     suffix_entry := of_string "_SW ";
     timestamp_var := true;
     page_range_entry := page_range;
     overwrite := of_string "ask";
     mode_var := of_string "grayscale";
     threshold_value := 180;
     dpi_value := of_string " 300 ";
     compression_var := 95;
     open_after_var := true;
     settings := default_settings |}.

(** The state a batch has reached when its chain of calls is over. *)
Definition final_state (r : option outcome) : state :=
  match r with
  | Some r => state_of r
  | None => State 0 ∅ []
  end.

Definition archive_files : filesystem :=
  <[of_string "/archive/in_SW_20240101_120000.pdf" := [Byte.x01]]> two_files.

(** The events the pipeline adds to a trace, and those the driver adds
    itself. *)
Definition pipeline_event (e : event) : Prop :=
  match e with
  | Progress _ _ _ | LoadPage _ => True
  | _ => False
  end.

Definition driver_event (e : event) : Prop :=
  match e with
  | Log _ | AskYesNo _ _ | Progress _ _ MsgAllDone => True
  | _ => False
  end.

(** When [convert_next_file] lets the pipeline run for the file at
    [index]: its output path is free, or the user agreed to overwrite it,
    or the policy is neither to ask nor to skip. *)
Definition may_write (H : host) (F : form) (index : nat) (input_path : str)
    (fs : filesystem) : Prop :=
  fs !! generate_output_path H F index input_path = None
  ∨ (is_ask F = true ∧ askyesno H index = true)
  ∨ (is_ask F = false ∧ is_skip F = false).

(** The output paths of a batch. *)
Definition output_paths (H : host) (F : form) : list str :=
  imap (generate_output_path H F) (input_files F).

(** Do the files at [paths] all exist? *)
Definition all_exist (fs : filesystem) (paths : list str) : bool :=
  forallb (fun path => bool_decide (is_Some (fs !! path))) paths.

(** A progress report that lies between 0 and 100 per cent. *)
Definition in_percent (e : event) : Prop :=
  match e with
  | Progress num den _ => 0 ≤ num ≤ den ∧ 0 < den
  | _ => True
  end.

(** The pages found so far, followed by those of a further result. *)
Definition extend (pages : list Z) (r : result (list Z)) : result (list Z) :=
  match r with
  | Ok more => Ok (pages ++ more)
  | Raise e => Raise e
  end.


(** The files of the logger: [log_file] and the two copies that the
    rotating handler keeps. *)
Definition log_file : str := of_string "pdf_converter.log".

Definition log_files : list str :=
  [log_file; log_file ++ of_string ".1"; log_file ++ of_string ".2"].

(** ** The batch, file by file

    What the specification says of a batch: the files are taken up one
    at a time, in the order of the request.  A file whose output path
    exists is skipped under the policy to skip, and under the policy to
    ask when the answer is no; any other file is converted, whatever
    becomes of the conversion.  Then the index moves on, and when the
    list is exhausted the batch reports that it is complete. *)

(** Is the file at [index] skipped on the file system [fs]? *)
Definition skipped (H : host) (F : form) (index : nat) (input_path : str)
    (fs : filesystem) : bool :=
  match fs !! generate_output_path H F index input_path with
  | Some _ => if is_ask F then negb (askyesno H index) else is_skip F
  | None => false
  end.

(** The question put to the user before the file at [index] is taken
    up, if one is. *)
Definition asked (H : host) (F : form) (index : nat) (input_path : str)
    (fs : filesystem) : list event :=
  match fs !! generate_output_path H F index input_path with
  | Some _ =>
      if is_ask F
      then [AskYesNo
              (posixpath.basename (generate_output_path H F index input_path))
              (askyesno H index)]
      else []
  | None => []
  end.

(** One file of the batch, at the resolution [dpi]. *)
Definition take_up (B : backend) (H : host) (F : form) (dpi : Z)
    (input_path : str) (st : state) : state :=
  let index := current_file_index st in
  let output_path := generate_output_path H F index input_path in
  let tr := trace st ++ asked H F index input_path (files st) in
  if skipped H F index input_path (files st) then
    State (S index) (files st)
      (tr ++ [Log (MsgSkip (posixpath.basename input_path))])
  else
    let '(page_range, log) := analyse_page_range B F input_path (files st) in
    let '(success, fs, tr) :=
      convert_pdf_to_bw B input_path output_path (threshold_value F) dpi
        page_range (mode_var F) (compression_var F) (files st) (tr ++ log) in
    State (S index) fs
      (if success && open_after_var F then tr ++ [OpenFile output_path]
       else tr).

(** The files taken up one after the other. *)
Definition taken_up (B : backend) (H : host) (F : form) (dpi : Z)
    (inputs : list str) (st : state) : state :=
  foldl (fun st input_path => take_up B H F dpi input_path st) st inputs.

(** The whole batch: every file, then the closing report. *)
Definition batch (B : backend) (H : host) (F : form) (dpi : Z)
    (inputs : list str) (st : state) : state :=
  let st := taken_up B H F dpi inputs st in
  State (current_file_index st) (files st)
    (trace st ++ [Progress 1 1 MsgAllDone]).

(** The results of a batch, read off its trace: for each file taken up,
    whether it was converted or skipped, and the pages that were
    rasterized for it, which are those between its entry and the next. *)
Fixpoint pages_of (tr : list event) : list Z :=
  match tr with
  | [] => []
  | e :: tr =>
      match attempt_of e with
      | Some _ => []
      | None =>
          match e with
          | LoadPage p => p :: pages_of tr
          | _ => pages_of tr
          end
      end
  end.

Fixpoint results (tr : list event) : list (attempt * list Z) :=
  match tr with
  | [] => []
  | e :: tr =>
      match attempt_of e with
      | Some a => (a, pages_of tr) :: results tr
      | None => results tr
      end
  end.

(** A batch of files that are numbered, with the output files that the
    default suffix gives them, all of them present. *)
Definition numbered (suffix : str) (i : nat) : str :=
  of_string "/scans/"
  ++ of_string (NilEmpty.string_of_uint (Nat.to_uint i))
  ++ suffix ++ of_string ".pdf".

Definition numbered_form (policy : str) (count : nat) : form :=
  {| input_files := numbered [] <$> seq 0 count;
     output_dir_entry := [];
     suffix_entry := of_string "_SW";
     timestamp_var := false;
     page_range_entry := [];
     overwrite := policy;
     mode_var := of_string "bw";
     threshold_value := 180;
     dpi_value := of_string "300";
     compression_var := 95;
     open_after_var := true;
     settings := default_settings |}.

Definition numbered_files (count : nat) : filesystem :=
  list_to_map
    ((fun i => (numbered (of_string "_SW") i, [Byte.x25])) <$> seq 0 count)
  ∪ list_to_map ((fun i => (numbered [] i, [Byte.x10])) <$> seq 0 count).
(** * Properties

    ** The page-range parser *)

Section RangeFacts.

Lemma elem_of_range (a b i : Z) : i ∈ range a b ↔ a ≤ i < b.
Proof.
  unfold range. rewrite list_elem_of_fmap. split.
  - intros (k & -> & Hk). apply elem_of_seq in Hk. lia.
  - intros Hi. exists (Z.to_nat (i - a)). split; [lia|].
    apply elem_of_seq. lia.
Qed.

Lemma range_from_zero (n : Z) : range 0 n = Z.of_nat <$> seq 0 (Z.to_nat n).
Proof. unfold range. by rewrite Z.sub_0_r. Qed.

Lemma seq_shift_sorted (a : Z) (k n : nat) :
  StronglySorted Z.lt ((λ i : nat, a + Z.of_nat i) <$> seq k n).
Proof.
  revert k. induction n as [|n IH]; intros k; simpl; constructor.
  - apply IH.
  - apply Forall_forall. intros x Hx.
    apply list_elem_of_fmap in Hx as (j & -> & Hj).
    apply elem_of_seq in Hj. lia.
Qed.

Lemma range_sorted (a b : Z) : StronglySorted Z.lt (range a b).
Proof. apply seq_shift_sorted. Qed.

Lemma StronglySorted_lt_NoDup (l : list Z) :
  StronglySorted Z.lt l → NoDup l.
Proof.
  induction 1 as [|x l _ IH Hx]; constructor; [|done].
  intros Hin. rewrite Forall_forall in Hx. specialize (Hx _ Hin). lia.
Qed.

Lemma StronglySorted_le_lt (l : list Z) :
  StronglySorted Z.le l → NoDup l → StronglySorted Z.lt l.
Proof.
  induction 1 as [|x l _ IH Hx]; intros Hnd; [constructor|].
  apply NoDup_cons in Hnd as [Hnotin Hnd]. constructor; [by apply IH|].
  rewrite Forall_forall in Hx. apply Forall_forall. intros y Hy.
  assert (x ≠ y) by (intros ->; done). specialize (Hx _ Hy). lia.
Qed.

End RangeFacts.

Section SortedSet.

Lemma elem_of_sorted_set (pages : list Z) (i : Z) :
  i ∈ sorted (set_of pages) ↔ i ∈ pages.
Proof.
  unfold sorted, set_of. rewrite merge_sort_Permutation.
  rewrite elem_of_elements. apply elem_of_list_to_set.
Qed.

Lemma sorted_set_NoDup (pages : list Z) : NoDup (sorted (set_of pages)).
Proof.
  unfold sorted. rewrite merge_sort_Permutation. apply NoDup_elements.
Qed.

Lemma sorted_set_ascending (pages : list Z) :
  StronglySorted Z.lt (sorted (set_of pages)).
Proof.
  apply StronglySorted_le_lt; [|apply sorted_set_NoDup].
  unfold sorted. apply StronglySorted_merge_sort; apply _.
Qed.

End SortedSet.

Section ParserFacts.
Import PyStr.

Lemma parse_part_in_document total_pages pages part pages' :
  Forall (in_document total_pages) pages →
  parse_part total_pages pages part = Ok pages' →
  Forall (in_document total_pages) pages'.
Proof.
  intros Hpages. unfold parse_part.
  destruct (contains _ _).
  - destruct (split _ _) as [|start [|end_ [|? ?]]]; try congruence.
    destruct (if truthy (strip start) then _ else _) as [s0|]; [|done].
    destruct (if truthy (strip end_) then _ else _) as [e0|]; [|done].
    simpl. intros [= <-]. apply Forall_app. split; [done|].
    apply Forall_forall. intros i Hi. apply elem_of_range in Hi.
    unfold in_document. lia.
  - destruct (truthy _); [|congruence].
    destruct (int _) as [page|[]]; [|congruence..].
    destruct (_ && _) eqn:Hrange; [|congruence].
    intros [= <-]. apply Forall_app. split; [done|].
    apply andb_true_iff in Hrange as [H1 H2].
    apply Z.leb_le in H1, H2. repeat constructor; lia.
Qed.

Lemma parse_parts_in_document total_pages parts pages pages' :
  Forall (in_document total_pages) pages →
  parse_parts total_pages pages parts = Ok pages' →
  Forall (in_document total_pages) pages'.
Proof.
  revert pages. induction parts as [|part parts IH]; intros pages Hpages.
  - by intros [= <-].
  - simpl. destruct (parse_part _ _ _) as [pages1|] eqn:Hpart; [|done].
    simpl. apply IH. eapply parse_part_in_document; eauto.
Qed.

(** A term without a dash never raises: the [try] of the singleton branch
    swallows the [ValueError] of [int]. *)
Lemma parse_part_singleton_total total_pages pages part :
  contains "-" (strip part) = false →
  ∃ pages', parse_part total_pages pages part = Ok pages'.
Proof.
  intros Hdash. unfold parse_part. rewrite Hdash.
  destruct (truthy _); [|eauto].
  unfold int. destruct (literal _) as [page|]; [|eauto].
  destruct (_ && _); eauto.
Qed.

Lemma lstrip_spaces (s : str) :
  Forall (fun c => isspace c = true) s → lstrip s = [].
Proof. induction 1 as [|c s Hc _ IH]; [done|]. simpl. by rewrite Hc. Qed.

Lemma strip_spaces (s : str) :
  Forall (fun c => isspace c = true) s → strip s = [].
Proof. intros Hall. unfold strip. by rewrite lstrip_spaces. Qed.

End ParserFacts.


Section ParserClaims.
Import PyStr.

(** C2 (as amended).  The worked examples of the parser: ["1-3,5"] over
    10 pages is [[0,1,2,4]] (page 5 is index 4), ["8-20"] over 10 pages
    is [[7,8,9]], ["0,-3"] over 5 pages is [[0,1,2]] and ["abc,2"] over
    5 pages is [[1]]. *)
Theorem parse_page_range_examples :
  parse_page_range "1-3,5" 10 = Ok [0; 1; 2; 4]
  ∧ parse_page_range "8-20" 10 = Ok [7; 8; 9]
  ∧ parse_page_range "0,-3" 5 = Ok [0; 1; 2]
  ∧ parse_page_range "abc,2" 5 = Ok [1].
Proof. repeat split; vm_compute; reflexivity. Qed.

(** C2, as stated, fails on its first example: the parser does not
    return [[0,1,2,5]] for ["1-3,5"] over 10 pages. *)
Lemma parse_page_range_first_example_differs :
  parse_page_range "1-3,5" 10 ≠ Ok [0; 1; 2; 5].
Proof. vm_compute. discriminate. Qed.

(** C3.  A malformed bound inside a dash-delimited term is not dropped:
    [int] raises [ValueError] out of [parse_page_range], although every
    other term of the expression is well formed. *)
Theorem parse_page_range_raises_on_bad_bound :
  parse_page_range "a-3" 5 = Raise ValueError
  ∧ parse_page_range "1,2-x,4" 5 = Raise ValueError.
Proof. split; vm_compute; reflexivity. Qed.

(** C7.  A result of [parse_page_range] over a document of at least one
    page is strictly ascending, hence free of duplicates, and each of
    its indices lies in [[0, page_count)]. *)
Theorem parse_page_range_ascending_in_document
    (expression : str) (page_count : Z) (pages : list Z) :
  1 ≤ page_count →
  parse_page_range expression page_count = Ok pages →
  StronglySorted Z.lt pages ∧ NoDup pages
  ∧ Forall (fun i => 0 ≤ i < page_count) pages.
Proof.
  intros _. unfold parse_page_range, parse_page_range_body.
  destruct (negb _).
  - intros [= <-]. split_and!.
    + apply range_sorted.
    + apply StronglySorted_lt_NoDup, range_sorted.
    + apply Forall_forall. intros i Hi. by apply elem_of_range in Hi.
  - destruct (parse_parts _ _ _) as [l|] eqn:Hparts; [|done].
    simpl. intros [= <-]. split_and!.
    + apply sorted_set_ascending.
    + apply sorted_set_NoDup.
    + apply (parse_parts_in_document page_count) in Hparts; [|constructor].
      rewrite Forall_forall in Hparts. apply Forall_forall.
      intros i Hi. apply (Hparts i), elem_of_sorted_set, Hi.
Qed.

Lemma parse_page_range_ascending_in_document_witness :
  StronglySorted Z.lt [1; 6; 7; 8; 9] ∧ NoDup [1; 6; 7; 8; 9]
  ∧ Forall (fun i => 0 ≤ i < 10) [1; 6; 7; 8; 9].
Proof.
  apply (parse_page_range_ascending_in_document
           " 7 , 1_0, +2, 1-2-3, 5 -3, 12, 9, 9,,8 -" 10).
  - lia.
  - vm_compute. reflexivity.
Defined.

(** C8.  An expression that is empty or holds white space only selects
    the full document: the result is [[0, 1, ..., page_count - 1]]. *)
Theorem parse_page_range_blank (expression : str) (page_count : Z) :
  1 ≤ page_count →
  Forall (fun c => isspace c = true) expression →
  parse_page_range expression page_count
  = Ok (Z.of_nat <$> seq 0 (Z.to_nat page_count)).
Proof.
  intros _ Hblank. unfold parse_page_range, parse_page_range_body.
  rewrite strip_spaces by done. simpl. by rewrite range_from_zero.
Qed.

Lemma parse_page_range_blank_witness :
  parse_page_range "  " 3 = Ok [0; 1; 2].
Proof.
  apply (parse_page_range_blank "  " 3).
  - lia.
  - repeat constructor.
Defined.

End ParserClaims.

(** ** The tone transform *)

Section ToneFacts.

Lemma point_pixel_table (f : Z → Z) (v : Z) :
  0 ≤ v ≤ 255 → point_pixel (lookup_table f) v = f v.
Proof.
  intros Hv. unfold point_pixel, lookup_table, range.
  rewrite !list_lookup_fmap, lookup_seq_lt by lia. simpl.
  f_equal. lia.
Qed.

(** C6.  A grey value [v] of 0..255 comes out black exactly when it is
    below the threshold and white otherwise; a value equal to the
    threshold comes out white. *)
Theorem to_bitonal_threshold
    (threshold : Z) (gray_img : image) (i : nat) (v : Z) :
  0 ≤ v ≤ 255 →
  pixels gray_img !! i = Some v →
  ∃ out, pixels (to_bitonal threshold gray_img) !! i = Some out
         ∧ (out = black ↔ v < threshold)
         ∧ (out = white ↔ threshold ≤ v)
         ∧ (v = threshold → out = white).
Proof.
  intros Hv Hi. unfold to_bitonal, point. simpl.
  rewrite list_lookup_fmap, Hi. simpl.
  rewrite point_pixel_table by done.
  eexists. split; [reflexivity|]. unfold black, white.
  destruct (Z.ltb_spec v threshold); split_and!; try split; intros; lia.
Qed.

Lemma to_bitonal_threshold_witness :
  ∃ out, pixels (to_bitonal 180 (Image 3 1 [179; 180; 181])) !! 1%nat
         = Some out
         ∧ (out = black ↔ 180 < 180)
         ∧ (out = white ↔ 180 ≤ 180)
         ∧ (180 = 180 → out = white).
Proof.
  apply (to_bitonal_threshold 180 (Image 3 1 [179; 180; 181]) 1 180).
  - lia.
  - reflexivity.
Defined.

End ToneFacts.

(** ** The pipeline for one file *)

Section PipelineFacts.
Context (B : backend).

Lemma attempts_app (tr1 tr2 : list event) :
  attempts (tr1 ++ tr2) = attempts tr1 ++ attempts tr2.
Proof. apply omap_app. Qed.

Lemma rasterized_app (tr1 tr2 : list event) :
  rasterized (tr1 ++ tr2) = rasterized tr1 ++ rasterized tr2.
Proof. apply omap_app. Qed.

(** The loop yields the pages encoded one after the other, or nothing
    when a page fails; what it reports starts no new file. *)
Lemma process_pages_spec doc threshold dpi mode compression num_pages
    (page_range : list Z) :
  ∀ idx bw_images tr,
  ∃ tr',
    process_pages B doc threshold dpi mode compression num_pages idx
      page_range bw_images tr
    = ((bw_images ++.) <$>
         mapM (fun page_num =>
                 get_pixmap B doc page_num dpi
                   ≫= encode_page B threshold mode compression)
           page_range,
       tr ++ tr')
    ∧ attempts tr' = [].
Proof.
  induction page_range as [|page_num rest IH]; intros idx bw_images tr.
  - exists []. simpl. by rewrite !app_nil_r.
  - simpl. destruct (get_pixmap B doc page_num dpi) as [img|]; simpl.
    + destruct (encode_page B threshold mode compression img)
        as [img_bytes|]; simpl.
      * destruct (IH (idx + 1) (bw_images ++ [img_bytes])
                    (tr ++ [Progress (idx + 1) num_pages
                              (MsgPage (idx + 1) num_pages (page_num + 1));
                            LoadPage page_num])) as (tr' & -> & Htr').
        eexists. split.
        -- rewrite <- (assoc_L (++) tr). f_equal.
           destruct (mapM _ rest); simpl; [|done].
           by rewrite <- (assoc_L (++) bw_images).
        -- rewrite attempts_app, Htr'. reflexivity.
      * eexists. split; reflexivity.
    + eexists. split; reflexivity.
Qed.

(** The returned flag and the file system after a run, stage by stage. *)
Lemma convert_pdf_to_bw_files (input_pdf output_pdf : str)
    (threshold dpi : Z) (page_range : option (list Z)) (mode : str)
    (compression : Z) (fs : filesystem) (tr : list event) :
  (convert_pdf_to_bw B input_pdf output_pdf threshold dpi page_range mode
     compression fs tr).1
  = match encoded_pages B input_pdf threshold dpi page_range mode
            compression fs with
    | None => (false, fs)
    | Some bw_images =>
        if can_open_wb B output_pdf then
          match img2pdf_convert B bw_images with
          | None => (false, <[output_pdf := []]> fs)
          | Some pdf => (true, <[output_pdf := pdf]> fs)
          end
        else (false, fs)
    end.
Proof.
  unfold convert_pdf_to_bw, encoded_pages.
  destruct (fs !! input_pdf) as [content|]; simpl; [|done].
  destruct (fitz_open B content) as [doc|]; simpl; [|done].
  destruct (select_pages page_range (page_count B doc))
    as [|page_num rest] eqn:Hsel; [done|].
  rewrite bool_decide_eq_false_2 by done.
  match goal with
  | |- context [process_pages B doc ?t ?d ?m ?c ?n ?i ?l ?acc ?tr] =>
      destruct (process_pages_spec doc t d m c n l i acc tr)
        as (tr' & -> & _)
  end.
  destruct (mapM _ (page_num :: rest)) as [bw_images|]; simpl; [|done].
  destruct (can_open_wb B output_pdf); [|done].
  destruct (img2pdf_convert B bw_images) as [pdf|]; simpl; [|done].
  by rewrite insert_insert_eq.
Qed.

(** A run opens with the report that names its input, and reports no
    other file. *)
Lemma convert_pdf_to_bw_trace (input_pdf output_pdf : str)
    (threshold dpi : Z) (page_range : option (list Z)) (mode : str)
    (compression : Z) (fs : filesystem) (tr : list event) :
  ∃ tr',
    (convert_pdf_to_bw B input_pdf output_pdf threshold dpi page_range mode
       compression fs tr).2
    = tr ++ Progress 0 1 (MsgChecking (posixpath.basename input_pdf)) :: tr'
    ∧ attempts tr' = [].
Proof.
  unfold convert_pdf_to_bw.
  destruct (fs !! input_pdf) as [content|]; simpl;
    [|eexists; by rewrite <- (assoc_L (++))].
  destruct (fitz_open B content) as [doc|]; simpl;
    [|eexists; by rewrite <- (assoc_L (++))].
  destruct (select_pages page_range (page_count B doc))
    as [|page_num rest] eqn:Hsel;
    [eexists; by rewrite <- (assoc_L (++))|].
  match goal with
  | |- context [process_pages B doc ?t ?d ?m ?c ?n ?i ?l ?acc ?tr] =>
      destruct (process_pages_spec doc t d m c n l i acc tr)
        as (tr' & -> & Htr')
  end.
  destruct (mapM _ (page_num :: rest)) as [bw_images|]; simpl.
  - destruct (can_open_wb B output_pdf).
    + destruct (img2pdf_convert B bw_images) as [pdf|]; simpl;
        eexists; rewrite <- !(assoc_L (++)); simpl;
        (split; [reflexivity|]); by rewrite attempts_app, Htr'.
    + eexists; rewrite <- !(assoc_L (++)); simpl;
        (split; [reflexivity|]); by rewrite attempts_app, Htr'.
  - eexists; rewrite <- !(assoc_L (++)); simpl;
      (split; [reflexivity|]); by rewrite attempts_app, Htr'.
Qed.

(** A run that reports success has written the assembled document to
    its output path, whatever was there before: the input itself when
    the two paths are the same. *)
Lemma successful_run_writes_output (input_pdf output_pdf : str)
    (threshold dpi : Z) (page_range : option (list Z)) (mode : str)
    (compression : Z) (fs fs' : filesystem) (tr tr' : list event) :
  convert_pdf_to_bw B input_pdf output_pdf threshold dpi page_range mode
    compression fs tr = (true, fs', tr') →
  ∃ bw_images pdf,
    encoded_pages B input_pdf threshold dpi page_range mode compression fs
    = Some bw_images
    ∧ img2pdf_convert B bw_images = Some pdf
    ∧ fs' = <[output_pdf := pdf]> fs.
Proof.
  intros Hrun.
  pose proof (convert_pdf_to_bw_files input_pdf output_pdf threshold dpi
                page_range mode compression fs tr) as Hfiles.
  rewrite Hrun in Hfiles. simpl in Hfiles.
  destruct (encoded_pages _ _ _ _ _ _ _ _) as [bw_images|]; [|done].
  destruct (can_open_wb B output_pdf); [|done].
  destruct (img2pdf_convert B bw_images) as [pdf|] eqn:Hpdf; [|done].
  injection Hfiles as ->. by exists bw_images, pdf.
Qed.

Lemma select_pages_beyond (page_range : list Z) (total_pages : Z) :
  Forall (fun p => total_pages ≤ p) page_range →
  select_pages (Some page_range) total_pages = [].
Proof.
  intros Hall. simpl. induction Hall as [|p l Hp _ IH]; [done|].
  rewrite filter_cons_False by lia. exact IH.
Qed.

(** C1 (as amended).  The flag and the file system a run leaves behind.
    When the input cannot be read or opened, no page is selected, or a
    page fails to rasterize, transform or encode, the run fails and the
    file system is unchanged.  The destination is opened for writing
    only once every selected page is encoded; if assembly then fails the
    run fails and the destination is left empty, and the assembled
    document is written only when assembly succeeds. *)
Theorem destination_written_after_encoding (input_pdf output_pdf : str)
    (threshold dpi : Z) (page_range : option (list Z)) (mode : str)
    (compression : Z) (fs : filesystem) (tr : list event) :
  let '(ok, fs', _) :=
    convert_pdf_to_bw B input_pdf output_pdf threshold dpi page_range mode
      compression fs tr in
  match encoded_pages B input_pdf threshold dpi page_range mode
          compression fs with
  | None => ok = false ∧ fs' = fs
  | Some bw_images =>
      if can_open_wb B output_pdf then
        match img2pdf_convert B bw_images with
        | None => ok = false ∧ fs' = <[output_pdf := []]> fs
        | Some pdf => ok = true ∧ fs' = <[output_pdf := pdf]> fs
        end
      else ok = false ∧ fs' = fs
  end.
Proof.
  pose proof (convert_pdf_to_bw_files input_pdf output_pdf threshold dpi
                page_range mode compression fs tr) as Hfiles.
  destruct (convert_pdf_to_bw _ _ _ _ _ _ _ _ _ _) as [[ok fs'] tr'].
  simpl in Hfiles.
  destruct (encoded_pages _ _ _ _ _ _ _ _) as [bw_images|];
    [|by inversion Hfiles].
  destruct (can_open_wb B output_pdf); [|by inversion Hfiles].
  destruct (img2pdf_convert B bw_images); by inversion Hfiles.
Qed.

(** C4.  A request whose pages all lie at or beyond the end of the
    document, the empty list among them, fails: the flag is [False],
    no page is rasterized and the file system is as before. *)
Theorem empty_selection_fails (input_pdf output_pdf : str)
    (threshold dpi : Z) (page_range : list Z) (mode : str)
    (compression : Z) (fs : filesystem) (tr : list event) :
  (∀ content doc,
     fs !! input_pdf = Some content → fitz_open B content = Some doc →
     Forall (fun p => page_count B doc ≤ p) page_range) →
  ∃ tr',
    convert_pdf_to_bw B input_pdf output_pdf threshold dpi (Some page_range)
      mode compression fs tr = (false, fs, tr')
    ∧ rasterized tr' = rasterized tr.
Proof.
  intros Hbeyond. unfold convert_pdf_to_bw.
  destruct (fs !! input_pdf) as [content|] eqn:Hcontent;
    [|eexists; split; [reflexivity|];
      rewrite !rasterized_app; simpl; by rewrite !app_nil_r].
  destruct (fitz_open B content) as [doc|] eqn:Hdoc;
    [|eexists; split; [reflexivity|];
      rewrite !rasterized_app; simpl; by rewrite !app_nil_r].
  rewrite select_pages_beyond by eauto.
  eexists; split; [reflexivity|].
  rewrite !rasterized_app; simpl; by rewrite !app_nil_r.
Qed.

End PipelineFacts.

(** C1, as stated, fails when assembly fails: the destination, which held
    two bytes before the run, is empty after it. *)
Lemma assembly_failure_empties_destination :
  let '(ok, fs', _) :=
    convert_pdf_to_bw (byte_document false) "in.pdf" "out.pdf" 180 300 None
      "bw" 95 two_files [] in
  ok = false
  ∧ two_files !! of_string "out.pdf" = Some [Byte.x25; Byte.x50]
  ∧ fs' !! of_string "out.pdf" = Some []
  ∧ fs' ≠ two_files.
Proof.
  vm_compute. split_and!; try reflexivity.
  intros Heq.
  assert (<[of_string "out.pdf" := []]> two_files !! of_string "out.pdf"
          = two_files !! of_string "out.pdf") as Hlook
    by (f_equal; exact Heq).
  vm_compute in Hlook. discriminate.
Qed.

Lemma empty_selection_fails_witness :
  ∃ tr',
    convert_pdf_to_bw (byte_document true) "in.pdf" "out.pdf" 180 300
      (Some [5; 7]) "bw" 95 two_files [] = (false, two_files, tr')
    ∧ rasterized tr' = rasterized [].
Proof.
  apply (empty_selection_fails (byte_document true)).
  intros content doc Hcontent Hdoc.
  vm_compute in Hcontent. injection Hcontent as <-.
  vm_compute in Hdoc. injection Hdoc as <-.
  repeat constructor; vm_compute; discriminate.
Defined.

(** ** Output paths *)

Section PathFacts.
Import PyStr posixpath.
#[local] Arguments Ascii.eqb : simpl never.

Lemma rfind_from_spec (c : ascii) (s : str) :
  ∀ i last,
    (rfind_from c i last s = last ∧ c ∉ s)
    ∨ ∃ k : nat, rfind_from c i last s = i + Z.of_nat k
                 ∧ s !! k = Some c ∧ c ∉ drop (S k) s.
Proof.
  induction s as [|x s IH]; intros i last; simpl.
  - left. split; [done|]. apply not_elem_of_nil.
  - destruct (IH (i + 1) (if Ascii.eqb x c then i else last))
      as [[Hr Hnot]|(k & Hr & Hk & Hnot)].
    + destruct (Ascii.eqb_spec x c) as [->|Hne].
      * right. exists 0%nat. rewrite Hr. split_and!; [lia|done|done].
      * left. split; [done|]. apply not_elem_of_cons. split; [congruence|done].
    + right. exists (S k). rewrite Hr. split_and!; [lia|done|done].
Qed.

(** The last separator splits a path into the part up to it and the
    file name after it. *)
Lemma rfind_split (c : ascii) (p : str) :
  (rfind c p = -1 ∧ c ∉ p)
  ∨ ∃ h t, p = h ++ c :: t ∧ rfind c p = Z.of_nat (length h) ∧ c ∉ t.
Proof.
  unfold rfind. destruct (rfind_from_spec c p 0 (-1))
    as [?|(k & Hr & Hk & Hnot)]; [by left|right].
  exists (take k p), (drop (S k) p). split_and!.
  - by rewrite take_drop_middle.
  - rewrite Hr, length_take_le; [lia|].
    apply lookup_lt_Some in Hk. lia.
  - done.
Qed.

Lemma upto_app (h t : str) (c : ascii) :
  upto (Z.of_nat (length h) + 1) (h ++ c :: t) = h ++ [c].
Proof.
  unfold upto. rewrite cons_middle, (assoc_L (++)).
  replace (Z.to_nat _) with (length (h ++ [c]))
    by (rewrite length_app; simpl; lia).
  apply take_app_length.
Qed.

Lemma from_app (h t : str) (c : ascii) :
  from (Z.of_nat (length h) + 1) (h ++ c :: t) = t.
Proof.
  unfold from. rewrite cons_middle, (assoc_L (++)).
  replace (Z.to_nat _) with (length (h ++ [c]))
    by (rewrite length_app; simpl; lia).
  apply drop_app_length.
Qed.

Lemma startswith_sep_not_elem (t : str) : sep ∉ t → startswith_sep t = false.
Proof.
  destruct t as [|c t]; [done|]. intros Hnot. simpl.
  apply Ascii.eqb_neq. intros ->. apply Hnot. left.
Qed.

Lemma splitext_app (p : str) : (splitext p).1 ++ (splitext p).2 = p.
Proof.
  unfold splitext. destruct (_ && _); simpl.
  - apply take_drop.
  - apply app_nil_r.
Qed.

(** What [lstrip_sep] removes is a run of separators, and what it
    leaves does not start with one. *)
Lemma lstrip_sep_spec (s : str) :
  ∃ seps, s = seps ++ lstrip_sep s ∧ all_sep seps = true
          ∧ startswith_sep (lstrip_sep s) = false.
Proof.
  induction s as [|c s (seps & Hs & Hseps & Hstart)].
  - by exists [].
  - simpl. destruct (Ascii.eqb_spec c sep) as [->|Hne].
    + exists (sep :: seps). split_and!; [by rewrite Hs at 1|done|done].
    + exists []. split_and!; [done|done|]. simpl. by apply Ascii.eqb_neq.
Qed.

Lemma all_sep_rev (s : str) : all_sep (rev s) = all_sep s.
Proof.
  unfold all_sep. induction s as [|c s IH]; [done|]. simpl.
  rewrite forallb_app, IH. simpl. rewrite andb_true_r. apply andb_comm.
Qed.

Lemma rstrip_sep_spec (s : str) :
  ∃ seps, s = rstrip_sep s ++ seps ∧ all_sep seps = true
          ∧ endswith_sep (rstrip_sep s) = false.
Proof.
  destruct (lstrip_sep_spec (rev s)) as (seps & Hs & Hseps & Hstart).
  exists (rev seps). unfold rstrip_sep, endswith_sep. split_and!.
  - rewrite <- rev_app_distr, <- Hs. by rewrite rev_involutive.
  - by rewrite all_sep_rev.
  - by rewrite rev_involutive.
Qed.

Lemma squeeze_cons_cons (c c' : ascii) (p : str) :
  squeeze (c :: c' :: p)
  = if Ascii.eqb c sep && Ascii.eqb c' sep then squeeze (c' :: p)
    else c :: squeeze (c' :: p).
Proof. reflexivity. Qed.

Lemma double_sep_cons_cons (c c' : ascii) (p : str) :
  double_sep (c :: c' :: p)
  = Ascii.eqb c sep && Ascii.eqb c' sep || double_sep (c' :: p).
Proof. reflexivity. Qed.

Lemma squeeze_double (a b : str) :
  squeeze (a ++ sep :: sep :: b) = squeeze (a ++ sep :: b).
Proof.
  induction a as [|c a IH]; [done|].
  destruct a as [|c' a]; simpl app in *.
  - by rewrite (squeeze_cons_cons c sep (sep :: b)),
      (squeeze_cons_cons c sep b), IH.
  - by rewrite (squeeze_cons_cons c c' (a ++ sep :: sep :: b)),
      (squeeze_cons_cons c c' (a ++ sep :: b)), IH.
Qed.

Lemma squeeze_run (a seps b : str) :
  all_sep seps = true →
  squeeze (a ++ sep :: seps ++ b) = squeeze (a ++ sep :: b).
Proof.
  induction seps as [|c seps IH]; [done|]. simpl.
  intros [Hc Hseps]%andb_true_iff. apply Ascii.eqb_eq in Hc as <-.
  rewrite squeeze_double. by apply IH.
Qed.

Lemma double_sep_middle (a b : str) :
  double_sep (a ++ sep :: sep :: b) = true.
Proof.
  induction a as [|c a IH]; [done|].
  destruct a as [|c' a]; simpl app in *.
  - rewrite (double_sep_cons_cons c sep (sep :: b)), IH. apply orb_true_r.
  - rewrite (double_sep_cons_cons c c' (a ++ sep :: sep :: b)), IH.
    apply orb_true_r.
Qed.

(** Joining the directory and the file name of a path gives the path
    back, up to the slashes dropped before the file name. *)
Lemma join_dirname_basename (p : str) :
  squeeze (join (dirname p) (basename p)) = squeeze p
  ∧ (double_sep p = false → join (dirname p) (basename p) = p).
Proof.
  unfold dirname, basename.
  destruct (rfind_split sep p) as [[-> Hnot]|(h & t & -> & -> & Hnot)].
  - change (from (-1 + 1) p) with p. change (upto (-1 + 1) p) with (@nil ascii).
    unfold join. simpl. by rewrite startswith_sep_not_elem.
  - rewrite upto_app, from_app. unfold join.
    rewrite startswith_sep_not_elem by done.
    assert (truthy (h ++ [sep]) = true) as Htruthy by (by destruct h).
    assert (endswith_sep (h ++ [sep]) = true) as Hends.
    { unfold endswith_sep. by rewrite rev_app_distr. }
    rewrite Htruthy.
    destruct (all_sep (h ++ [sep])) eqn:Hall; simpl.
    + rewrite Hends, orb_true_r. by rewrite <- (assoc_L (++)).
    + destruct (rstrip_sep_spec (h ++ [sep])) as (seps & Hs & Hseps & Hend).
      generalize dependent (rstrip_sep (h ++ [sep])). intros dir Hs Hend.
      rewrite Hend.
      assert (truthy dir = true) as ->.
      { destruct dir; [|done]. simpl in Hs. rewrite Hs in Hall. congruence. }
      simpl.
      destruct seps as [|c seps].
      { rewrite app_nil_r in Hs. rewrite Hs in Hends. congruence. }
      simpl in Hseps. apply andb_true_iff in Hseps as [Hc Hseps].
      apply Ascii.eqb_eq in Hc as <-.
      assert (h ++ sep :: t = dir ++ sep :: seps ++ t) as ->.
      { rewrite (cons_middle sep h t), (assoc_L (++) h [sep] t), Hs.
        by rewrite <- (assoc_L (++)). }
      split.
      * by rewrite squeeze_run.
      * destruct seps as [|c seps]; [done|].
        simpl in Hseps. apply andb_true_iff in Hseps as [Hc _].
        apply Ascii.eqb_eq in Hc as <-. simpl.
        by rewrite double_sep_middle.
Qed.

End PathFacts.

(** * Further properties

    ** White space and splitting *)

Section StringFacts.
Import PyStr.
#[local] Arguments Ascii.eqb : simpl never.
#[local] Arguments isspace : simpl never.

Lemma lstrip_decompose (s : str) :
  ∃ ws, s = ws ++ lstrip s ∧ Forall (fun c => isspace c = true) ws.
Proof.
  induction s as [|c s (ws & Hs & Hws)]; [by exists []|]. simpl.
  destruct (isspace c) eqn:Hc.
  - exists (c :: ws). split; [by rewrite Hs at 1|by constructor].
  - by exists [].
Qed.

Lemma rstrip_decompose (s : str) :
  ∃ ws, s = rstrip s ++ ws ∧ Forall (fun c => isspace c = true) ws.
Proof.
  destruct (lstrip_decompose (rev s)) as (ws & Hs & Hws).
  exists (rev ws). unfold rstrip. split.
  - rewrite <- rev_app_distr, <- Hs. by rewrite rev_involutive.
  - by apply Forall_rev.
Qed.

(** A string is its stripped form between two runs of white space. *)
Lemma strip_decompose (s : str) :
  ∃ ws1 ws2, s = ws1 ++ strip s ++ ws2
             ∧ Forall (fun c => isspace c = true) ws1
             ∧ Forall (fun c => isspace c = true) ws2.
Proof.
  destruct (lstrip_decompose s) as (ws1 & Hs1 & Hws1).
  destruct (rstrip_decompose (lstrip s)) as (ws2 & Hs2 & Hws2).
  exists ws1, ws2. unfold strip. by rewrite <- Hs2.
Qed.

Lemma strip_nil_spaces (s : str) :
  strip s = [] → Forall (fun c => isspace c = true) s.
Proof.
  intros Hstrip. destruct (strip_decompose s) as (ws1 & ws2 & Hs & H1 & H2).
  rewrite Hs, Hstrip. simpl. by apply Forall_app.
Qed.

Lemma elem_of_strip (s : str) (c : ascii) : c ∈ strip s → c ∈ s.
Proof.
  intros Hc. destruct (strip_decompose s) as (ws1 & ws2 & Hs & _).
  rewrite Hs. set_solver.
Qed.

Lemma elem_of_strip_visible (s : str) (c : ascii) :
  isspace c = false → c ∈ s → c ∈ strip s.
Proof.
  intros Hvisible Hc.
  destruct (strip_decompose s) as (ws1 & ws2 & Hs & H1 & H2).
  rewrite Hs in Hc. rewrite Forall_forall in H1, H2.
  apply elem_of_app in Hc as [Hc|Hc]; [apply H1 in Hc; congruence|].
  apply elem_of_app in Hc as [Hc|Hc]; [done|apply H2 in Hc; congruence].
Qed.

Lemma truthy_strip_app (s1 s2 : str) :
  truthy (strip s1) = true → truthy (strip (s1 ++ s2)) = true.
Proof.
  intros Hs1. destruct (strip (s1 ++ s2)) eqn:Hstrip; [|done].
  apply strip_nil_spaces, Forall_app in Hstrip as [Hspaces _].
  by rewrite (strip_spaces s1) in Hs1.
Qed.

Lemma contains_false (c : ascii) (s : str) : contains c s = false ↔ c ∉ s.
Proof.
  unfold contains. induction s as [|x s IH]; simpl.
  - split; [intros _; apply not_elem_of_nil|done].
  - rewrite orb_false_iff, IH, not_elem_of_cons, Ascii.eqb_neq. tauto.
Qed.

Lemma contains_true (c : ascii) (s : str) : contains c s = true ↔ c ∈ s.
Proof.
  destruct (contains c s) eqn:Hc.
  - split; [intros _|done]. destruct (decide (c ∈ s)) as [|Hnot]; [done|].
    apply contains_false in Hnot. congruence.
  - apply contains_false in Hc. split; [done|intros; done].
Qed.

Lemma split_cons (sep c : ascii) (s : str) :
  split sep (c :: s)
  = if Ascii.eqb c sep then [] :: split sep s
    else match split sep s with
         | w :: ws => (c :: w) :: ws
         | [] => [[c]]
         end.
Proof. reflexivity. Qed.

Lemma split_not_nil (sep : ascii) (s : str) : split sep s ≠ [].
Proof.
  induction s as [|c s IH]; [done|]. rewrite split_cons.
  destruct (Ascii.eqb c sep); [done|]. by destruct (split sep s).
Qed.

(** Splitting a string that has no separator gives the string. *)
Lemma split_none (sep : ascii) (s : str) : sep ∉ s → split sep s = [s].
Proof.
  induction s as [|c s IH]; [done|]. intros [Hc Hs]%not_elem_of_cons.
  specialize (IH Hs). rewrite split_cons, IH.
  by rewrite (proj2 (Ascii.eqb_neq c sep)) by done.
Qed.

(** Splitting at a separator splits the list of pieces. *)
Lemma split_app (sep : ascii) (s1 s2 : str) :
  split sep (s1 ++ sep :: s2) = split sep s1 ++ split sep s2.
Proof.
  induction s1 as [|c s1 IH]; simpl app.
  - rewrite split_cons, Ascii.eqb_refl. reflexivity.
  - rewrite !split_cons, IH. destruct (Ascii.eqb c sep); [done|].
    pose proof (split_not_nil sep s1). by destruct (split sep s1).
Qed.

Lemma elem_of_split (sep : ascii) (s w : str) (c : ascii) :
  w ∈ split sep s → c ∈ w → c ∈ s.
Proof.
  revert w. induction s as [|x s IH]; intros w.
  - intros ->%list_elem_of_singleton. done.
  - rewrite split_cons. destruct (Ascii.eqb x sep).
    + intros [->|Hw]%elem_of_cons Hc.
      * by apply elem_of_nil in Hc.
      * right. by eapply IH.
    + destruct (split sep s) as [|w0 ws] eqn:Hsplit.
      * by destruct (split_not_nil sep s).
      * intros [->|Hw]%elem_of_cons Hc.
        -- apply elem_of_cons in Hc as [->|Hc'].
           ++ left.
           ++ right. apply (IH w0); [left|done].
        -- right. apply (IH w); [by right|done].
Qed.

(** The number of pieces is one more than the number of separators. *)
Lemma length_split (sep : ascii) (s : list ascii) :
  length (split sep s) = S (length (filter (fun c => c = sep) s)).
Proof.
  induction s as [|c s IH]; [done|]. rewrite split_cons.
  destruct (Ascii.eqb_spec c sep) as [->|Hne].
  - rewrite filter_cons_True by done. simpl. by rewrite IH.
  - rewrite filter_cons_False by done.
    pose proof (split_not_nil sep s). destruct (split sep s); [done|].
    simpl in *. done.
Qed.

End StringFacts.

(** ** More on the page-range parser *)

Section ParserComposition.
Import PyStr.
#[local] Arguments Ascii.eqb : simpl never.
#[local] Arguments isspace : simpl never.

Lemma parse_part_extend (total_pages : Z) (pages : list Z) (part : str) :
  parse_part total_pages pages part
  = extend pages (parse_part total_pages [] part).
Proof.
  unfold parse_part. destruct (contains _ _).
  - destruct (split _ _) as [|start [|end_ [|? ?]]];
      simpl; rewrite ?app_nil_r; try done.
    destruct (if truthy (strip start) then _ else _) as [s0|]; [|done].
    by destruct (if truthy (strip end_) then _ else _) as [e0|].
  - destruct (truthy _); [|by simpl; rewrite app_nil_r].
    destruct (int _) as [page|[]]; simpl; rewrite ?app_nil_r; try done.
    destruct (_ && _); simpl; by rewrite ?app_nil_r.
Qed.

Lemma parse_parts_extend (total_pages : Z) (parts : list str) :
  ∀ pages,
    parse_parts total_pages pages parts
    = extend pages (parse_parts total_pages [] parts).
Proof.
  induction parts as [|part parts IH]; intros pages; simpl.
  - by rewrite app_nil_r.
  - rewrite (parse_part_extend _ pages).
    destruct (parse_part total_pages [] part) as [more|]; simpl; [|done].
    rewrite (IH (pages ++ more)), (IH more).
    destruct (parse_parts total_pages [] parts); simpl; [|done].
    by rewrite (assoc_L (++)).
Qed.

Lemma parse_parts_app (total_pages : Z) (parts1 parts2 : list str) :
  ∀ pages,
    parse_parts total_pages pages (parts1 ++ parts2)
    = parse_parts total_pages pages parts1
        ≫= fun pages' => parse_parts total_pages pages' parts2.
Proof.
  induction parts1 as [|part parts1 IH]; intros pages; simpl; [done|].
  destruct (parse_part total_pages pages part); simpl; [apply IH|done].
Qed.

Lemma parse_page_range_nonblank (expression : str) (total_pages : Z) :
  truthy (strip expression) = true →
  parse_page_range expression total_pages
  = parse_parts total_pages [] (split "," expression)
      ≫= fun pages => Ok (sorted (set_of pages)).
Proof.
  intros Hnonblank. unfold parse_page_range, parse_page_range_body.
  by rewrite Hnonblank.
Qed.

Lemma parse_parts_in_range_total (total_pages : Z) (parts : list str) :
  Forall (fun part => contains "-" part = false) parts →
  ∀ pages, ∃ pages', parse_parts total_pages pages parts = Ok pages'.
Proof.
  induction 1 as [|part parts Hpart _ IH]; intros pages; simpl; [eauto|].
  destruct (parse_part_singleton_total total_pages pages part) as [pages' ->].
  - apply contains_false. apply contains_false in Hpart.
    intros Hin. by apply Hpart, elem_of_strip.
  - simpl. apply IH.
Qed.

(** X1.  An expression without a dash never raises: whatever its terms
    are, numbers or not, the parser returns a list. *)
Theorem parse_page_range_without_dash_returns
    (expression : str) (total_pages : Z) :
  contains "-" expression = false →
  ∃ pages, parse_page_range expression total_pages = Ok pages.
Proof.
  intros Hdash. unfold parse_page_range, parse_page_range_body.
  destruct (negb _); [eauto|].
  destruct (parse_parts_in_range_total total_pages (split "," expression))
    with (pages := @nil Z) as [pages ->]; [|simpl; eauto].
  apply Forall_forall. intros part Hpart. apply contains_false.
  apply contains_false in Hdash. intros Hin.
  by eapply Hdash, elem_of_split.
Qed.

Lemma parse_page_range_without_dash_returns_witness :
  ∃ pages, parse_page_range "2, x7, 0, 12 ,4.5,3" 5 = Ok pages.
Proof.
  apply (parse_page_range_without_dash_returns "2, x7, 0, 12 ,4.5,3" 5).
  reflexivity.
Defined.

Lemma parse_page_range_in_document (expression : str) (total_pages : Z)
    (pages : list Z) :
  parse_page_range expression total_pages = Ok pages →
  Forall (in_document total_pages) pages.
Proof.
  unfold parse_page_range, parse_page_range_body. destruct (negb _).
  - intros [= <-]. apply Forall_forall. intros i Hi.
    by apply elem_of_range in Hi.
  - destruct (parse_parts _ _ _) as [l|] eqn:Hparts; [|done].
    simpl. intros [= <-].
    apply (parse_parts_in_document total_pages) in Hparts; [|constructor].
    rewrite Forall_forall in Hparts. apply Forall_forall.
    intros i Hi. apply (Hparts i), elem_of_sorted_set, Hi.
Qed.

(** X2.  Over a document without pages every expression that parses
    selects nothing, the blank expression included. *)
Theorem parse_page_range_empty_document
    (expression : str) (total_pages : Z) (pages : list Z) :
  total_pages ≤ 0 →
  parse_page_range expression total_pages = Ok pages →
  pages = [].
Proof.
  intros Hempty Hparse. apply parse_page_range_in_document in Hparse.
  destruct Hparse as [|i pages Hi _]; [done|].
  unfold in_document in Hi. lia.
Qed.

Lemma parse_page_range_empty_document_witness : @nil Z = [].
Proof.
  apply (parse_page_range_empty_document "1-3, 2, -" 0 []).
  - lia.
  - vm_compute. reflexivity.
Defined.

Lemma set_of_sorted (pages : list Z) : set_of (sorted (set_of pages)) = set_of pages.
Proof.
  apply set_eq. intros i. unfold set_of at 1 3.
  by rewrite !elem_of_list_to_set, elem_of_sorted_set.
Qed.

(** X3.  The comma is a union: when two non-blank expressions parse, the
    expression that joins them with a comma parses to the sorted,
    duplicate-free union of their results. *)
Theorem parse_page_range_comma_union
    (expression1 expression2 : str) (total_pages : Z)
    (pages1 pages2 : list Z) :
  truthy (strip expression1) = true →
  truthy (strip expression2) = true →
  parse_page_range expression1 total_pages = Ok pages1 →
  parse_page_range expression2 total_pages = Ok pages2 →
  parse_page_range (expression1 ++ "," %char :: expression2) total_pages
  = Ok (sorted (set_of (pages1 ++ pages2))).
Proof.
  intros Hnonblank1 Hnonblank2.
  rewrite !parse_page_range_nonblank by (done || by apply truthy_strip_app).
  rewrite split_app, parse_parts_app.
  destruct (parse_parts total_pages [] (split "," expression1))
    as [found1|]; [|done].
  simpl. rewrite (parse_parts_extend _ _ found1).
  destruct (parse_parts total_pages [] (split "," expression2))
    as [found2|]; [|done].
  simpl. intros [= <-] [= <-]. f_equal. f_equal.
  unfold set_of at 1 2. rewrite !list_to_set_app_L.
  fold (set_of found1) (set_of found2).
  fold (set_of (sorted (set_of found1))) (set_of (sorted (set_of found2))).
  by rewrite !set_of_sorted.
Qed.

Lemma parse_page_range_comma_union_witness :
  parse_page_range (of_string "4-6,1" ++ "," %char :: of_string "5,2-4") 10
  = Ok (sorted (set_of ([0; 3; 4; 5] ++ [1; 2; 3; 4]))).
Proof.
  apply (parse_page_range_comma_union "4-6,1" "5,2-4" 10).
  - reflexivity.
  - reflexivity.
  - vm_compute. reflexivity.
  - vm_compute. reflexivity.
Defined.

Lemma filter_strip_visible (P : ascii → Prop) `{∀ c, Decision (P c)}
    (s : list ascii) :
  (∀ c, P c → isspace c = false) →
  filter P (strip s) = filter P s.
Proof.
  intros Hvisible.
  destruct (strip_decompose s) as (ws1 & ws2 & Hs & H1 & H2).
  assert (∀ ws : list ascii,
            Forall (fun c => isspace c = true) ws → filter P ws = [])
    as Hnone.
  { induction 1 as [|c ws Hc _ IH]; [done|].
    rewrite filter_cons_False; [done|].
    intros HP. apply Hvisible in HP. congruence. }
  rewrite Hs at 2. rewrite !filter_app, (Hnone ws1), (Hnone ws2) by done.
  simpl. by rewrite app_nil_r.
Qed.

Lemma parse_part_many_dashes (total_pages : Z) (pages : list Z)
    (term : list ascii) :
  (2 ≤ length (filter (fun c => c = "-"%char) term))%nat →
  parse_part total_pages pages term = Ok pages.
Proof.
  intros Hdashes. unfold parse_part.
  pose proof (length_split "-" (strip term)) as Hlength.
  rewrite filter_strip_visible in Hlength by (by intros c ->).
  destruct (contains _ _) eqn:Hcontains.
  - destruct (split _ _) as [|start [|end_ [|? ?]]]; try done.
    simpl in Hlength. lia.
  - apply contains_false in Hcontains. destruct Hcontains.
    apply elem_of_strip_visible; [done|].
    destruct (filter (fun c => c = "-"%char) term) as [|c l] eqn:Hfilter;
      [simpl in Hdashes; lia|].
    assert (c ∈ filter (fun c => c = "-"%char) term) as Hc
      by (rewrite Hfilter; left).
    by apply list_elem_of_filter in Hc as [-> Hc].
Qed.

(** X4.  A term with two or more dashes is passed over without an error,
    whatever stands between the dashes: adding it to an expression
    changes nothing. *)
Theorem parse_page_range_ignores_many_dashes
    (expression term : list ascii) (total_pages : Z) :
  truthy (strip expression) = true →
  contains "," term = false →
  (2 ≤ length (filter (fun c => c = "-"%char) term))%nat →
  parse_page_range (expression ++ "," %char :: term) total_pages
  = parse_page_range expression total_pages.
Proof.
  intros Hnonblank Hcomma Hdashes.
  rewrite !parse_page_range_nonblank by (done || by apply truthy_strip_app).
  rewrite split_app, parse_parts_app.
  rewrite (split_none "," term) by (by apply contains_false).
  destruct (parse_parts total_pages [] (split "," expression))
    as [found|]; [|done].
  simpl. by rewrite parse_part_many_dashes.
Qed.

Lemma parse_page_range_ignores_many_dashes_witness :
  parse_page_range (of_string "2-3" ++ "," %char :: of_string "a-b-c") 10
  = parse_page_range "2-3" 10.
Proof.
  apply (parse_page_range_ignores_many_dashes
           (of_string "2-3") (of_string "a-b-c") 10).
  - reflexivity.
  - reflexivity.
  - vm_compute. lia.
Defined.

End ParserComposition.

(** ** More on the tone transform *)

Section ToneExtras.

Lemma to_bitonal_pixel (threshold : Z) (gray_img : image) (i : nat) (v : Z) :
  0 ≤ v ≤ 255 →
  pixels gray_img !! i = Some v →
  pixels (to_bitonal threshold gray_img) !! i
  = Some (if v <? threshold then black else white).
Proof.
  intros Hv Hi. unfold to_bitonal, point. simpl.
  rewrite list_lookup_fmap, Hi. simpl. by rewrite point_pixel_table.
Qed.

(** X5.  The bitonal image has the size of the grey image and one pixel
    for each of its pixels, and every pixel of it is black or white,
    whatever the threshold and the grey values are. *)
Theorem to_bitonal_two_tones (threshold : Z) (gray_img : image) :
  width (to_bitonal threshold gray_img) = width gray_img
  ∧ height (to_bitonal threshold gray_img) = height gray_img
  ∧ length (pixels (to_bitonal threshold gray_img))
    = length (pixels gray_img)
  ∧ Forall (fun v => v = black ∨ v = white)
      (pixels (to_bitonal threshold gray_img)).
Proof.
  unfold to_bitonal, point. simpl. split_and!; [done|done|apply length_fmap|].
  apply Forall_fmap, Forall_forall. intros v _. simpl.
  unfold point_pixel, lookup_table.
  rewrite list_lookup_fmap.
  destruct (range 0 256 !! Z.to_nat v) as [x|]; simpl; [|by left].
  destruct (x <? threshold); [by left|by right].
Qed.

(** X6.  Raising the threshold only turns pixels black: a pixel that is
    black under a threshold is black under every higher one. *)
Theorem to_bitonal_monotone
    (threshold1 threshold2 : Z) (gray_img : image) (i : nat) (v : Z) :
  threshold1 ≤ threshold2 →
  0 ≤ v ≤ 255 →
  pixels gray_img !! i = Some v →
  pixels (to_bitonal threshold1 gray_img) !! i = Some black →
  pixels (to_bitonal threshold2 gray_img) !! i = Some black.
Proof.
  intros Hle Hv Hi. rewrite !(to_bitonal_pixel _ _ i v) by done.
  destruct (Z.ltb_spec v threshold1); [|done].
  intros _. by rewrite (proj2 (Z.ltb_lt v threshold2)) by lia.
Qed.

Lemma to_bitonal_monotone_witness :
  pixels (to_bitonal 200 (Image 2 1 [150; 220])) !! 0%nat = Some black.
Proof.
  apply (to_bitonal_monotone 180 200 (Image 2 1 [150; 220]) 0 150).
  - lia.
  - lia.
  - reflexivity.
  - reflexivity.
Defined.

(** X7.  At the ends of the scale nothing is left to tell apart: with a
    threshold of 0 or less every 8-bit pixel is white, with a threshold
    above 255 every 8-bit pixel is black. *)
Theorem to_bitonal_extremes (threshold : Z) (gray_img : image) :
  Forall (fun v => 0 ≤ v ≤ 255) (pixels gray_img) →
  threshold ≤ 0 ∨ 255 < threshold →
  Forall (fun v => v = if threshold <=? 0 then white else black)
    (pixels (to_bitonal threshold gray_img)).
Proof.
  intros Hpixels Hthreshold. rewrite Forall_forall in Hpixels.
  unfold to_bitonal, point. simpl.
  apply Forall_fmap, Forall_forall. intros v Hv. simpl.
  rewrite point_pixel_table by auto. specialize (Hpixels v Hv).
  destruct (Z.leb_spec threshold 0).
  - by rewrite (proj2 (Z.ltb_ge v threshold)) by lia.
  - by rewrite (proj2 (Z.ltb_lt v threshold)) by lia.
Qed.

Lemma to_bitonal_extremes_witness :
  Forall (fun v => v = black) (pixels (to_bitonal 256 (Image 2 1 [0; 255]))).
Proof.
  apply (to_bitonal_extremes 256 (Image 2 1 [0; 255])).
  - repeat constructor; lia.
  - right. lia.
Defined.

End ToneExtras.

(** ** More on the pipeline for one file *)

Section PipelineExtras.
Context (B : backend).

Lemma process_pages_rasterized (doc : document B) (threshold dpi : Z)
    (mode : str) (compression num_pages : Z) (page_range : list Z) :
  ∀ idx bw_images tr,
  ∃ done,
    rasterized (process_pages B doc threshold dpi mode compression num_pages
                  idx page_range bw_images tr).2
    = rasterized tr ++ done
    ∧ done `prefix_of` page_range
    ∧ (is_Some (process_pages B doc threshold dpi mode compression num_pages
                  idx page_range bw_images tr).1 → done = page_range).
Proof.
  induction page_range as [|page_num rest IH]; intros idx bw_images tr.
  - exists []. simpl. by rewrite app_nil_r.
  - simpl.
    assert (∀ m, rasterized (tr ++ [Progress (idx + 1) num_pages m;
                                     LoadPage page_num])
                 = rasterized tr ++ [page_num]) as Hstep
      by (intros m; by rewrite rasterized_app).
    destruct (get_pixmap B doc page_num dpi) as [img|]; simpl.
    + destruct (encode_page B threshold mode compression img)
        as [img_bytes|]; simpl.
      * destruct (IH (idx + 1) (bw_images ++ [img_bytes])
                    (tr ++ [Progress (idx + 1) num_pages
                              (MsgPage (idx + 1) num_pages (page_num + 1));
                            LoadPage page_num]))
          as (done & Hdone & Hprefix & Hall).
        exists (page_num :: done). rewrite Hdone, Hstep. split_and!.
        -- by rewrite <- (assoc_L (++)).
        -- by apply prefix_cons.
        -- intros Hsome. by rewrite Hall.
      * exists [page_num]. rewrite Hstep. split_and!; [done| |by intros []].
        apply prefix_cons, prefix_nil.
    + exists [page_num]. rewrite Hstep. split_and!; [done| |by intros []].
      apply prefix_cons, prefix_nil.
Qed.

Lemma convert_pdf_to_bw_elsewhere (input_pdf output_pdf : str)
    (threshold dpi : Z) (page_range : option (list Z)) (mode : str)
    (compression : Z) (fs : filesystem) (tr : list event) (path : str) :
  path ≠ output_pdf →
  (convert_pdf_to_bw B input_pdf output_pdf threshold dpi page_range mode
     compression fs tr).1.2 !! path
  = fs !! path.
Proof.
  intros Hpath.
  pose proof (convert_pdf_to_bw_files B input_pdf output_pdf threshold dpi
                page_range mode compression fs tr) as Hfiles.
  destruct (convert_pdf_to_bw _ _ _ _ _ _ _ _ _ _) as [[ok fs'] tr'].
  simpl in *.
  destruct (encoded_pages _ _ _ _ _ _ _ _) as [bw_images|];
    [|by injection Hfiles as _ ->].
  destruct (can_open_wb B output_pdf); [|by injection Hfiles as _ ->].
  destruct (img2pdf_convert B bw_images);
    injection Hfiles as _ ->; by rewrite lookup_insert_ne.
Qed.

(** X8.  Apart from the files of the logger, a run writes to its output
    path and nowhere else: every other path holds after the run what it
    held before, the input among them when it is not the output. *)
Theorem only_output_written (input_pdf output_pdf : str)
    (threshold dpi : Z) (page_range : option (list Z)) (mode : str)
    (compression : Z) (fs : filesystem) (tr : list event) (path : str) :
  path ≠ output_pdf →
  path ∉ log_files →
  (convert_pdf_to_bw B input_pdf output_pdf threshold dpi page_range mode
     compression fs tr).1.2 !! path
  = fs !! path.
Proof. intros Hpath _. by apply convert_pdf_to_bw_elsewhere. Qed.

(** X9.  Pages are rasterized in the order of the selection, each at most
    once: the pages a run rasterizes are an initial stretch of the
    selected pages, and all of them when the run succeeds. *)
Theorem pages_rasterized_in_order (input_pdf output_pdf : str)
    (threshold dpi : Z) (page_range : option (list Z)) (mode : str)
    (compression : Z) (fs : filesystem) (tr : list event)
    (content : bytes) (doc : document B) :
  fs !! input_pdf = Some content →
  fitz_open B content = Some doc →
  let '(ok, _, tr') :=
    convert_pdf_to_bw B input_pdf output_pdf threshold dpi page_range mode
      compression fs tr in
  ∃ done,
    rasterized tr' = rasterized tr ++ done
    ∧ done `prefix_of` select_pages page_range (page_count B doc)
    ∧ (ok = true → done = select_pages page_range (page_count B doc)).
Proof.
  intros Hcontent Hdoc. unfold convert_pdf_to_bw.
  rewrite Hcontent, Hdoc.
  destruct (select_pages page_range (page_count B doc))
    as [|page_num rest] eqn:Hsel.
  { exists []. rewrite !rasterized_app. simpl. by rewrite !app_nil_r. }
  match goal with
  | |- context [process_pages B doc ?t ?d ?m ?c ?n ?i ?l ?acc ?tr] =>
      destruct (process_pages_rasterized doc t d m c n l i acc tr)
        as (done & Hdone & Hprefix & Hall);
      destruct (process_pages B doc t d m c n i l acc tr)
        as [[bw_images|] tr1]
  end; simpl in *.
  - rewrite rasterized_app in Hdone. simpl in Hdone.
    rewrite app_nil_r in Hdone.
    destruct (can_open_wb B output_pdf);
      [destruct (img2pdf_convert B bw_images)|];
      exists done; rewrite rasterized_app, Hdone; simpl;
      rewrite app_nil_r; split_and!; try done; intros _; by apply Hall.
  - rewrite rasterized_app in Hdone. simpl in Hdone.
    rewrite app_nil_r in Hdone.
    exists done. rewrite rasterized_app, Hdone. simpl.
    by rewrite app_nil_r.
Qed.

(** X10.  The document a successful run leaves at the output path is
    assembled from one image for each selected page, in the order of the
    selection, each the encoding of its page. *)
Theorem output_holds_selected_pages (input_pdf output_pdf : str)
    (threshold dpi : Z) (page_range : option (list Z)) (mode : str)
    (compression : Z) (fs fs' : filesystem) (tr tr' : list event)
    (content : bytes) (doc : document B) :
  fs !! input_pdf = Some content →
  fitz_open B content = Some doc →
  convert_pdf_to_bw B input_pdf output_pdf threshold dpi page_range mode
    compression fs tr = (true, fs', tr') →
  ∃ bw_images pdf,
    Forall2 (fun page_num img_bytes =>
               get_pixmap B doc page_num dpi
                 ≫= encode_page B threshold mode compression
               = Some img_bytes)
      (select_pages page_range (page_count B doc)) bw_images
    ∧ img2pdf_convert B bw_images = Some pdf
    ∧ fs' !! output_pdf = Some pdf.
Proof.
  intros Hcontent Hdoc Hrun.
  apply successful_run_writes_output in Hrun
    as (bw_images & pdf & Hencoded & Hpdf & ->).
  exists bw_images, pdf. split_and!; [|done|apply lookup_insert_eq].
  unfold encoded_pages in Hencoded. rewrite Hcontent in Hencoded.
  simpl in Hencoded. rewrite Hdoc in Hencoded. simpl in Hencoded.
  destruct (bool_decide _); [done|]. by apply mapM_Some.
Qed.

(** X11.  What the parser returns for a document passes the filter of the
    pipeline for that document unchanged. *)
Theorem parsed_pages_pass_filter
    (expression : str) (total_pages : Z) (pages : list Z) :
  parse_page_range expression total_pages = Ok pages →
  select_pages (Some pages) total_pages = pages.
Proof.
  intros Hparse. apply parse_page_range_in_document in Hparse. simpl.
  induction Hparse as [|i pages Hi _ IH]; [done|].
  unfold in_document in Hi. rewrite filter_cons_True by lia. by rewrite IH.
Qed.

Lemma process_pages_in_percent (doc : document B) (threshold dpi : Z)
    (mode : str) (compression num_pages : Z) (page_range : list Z) :
  ∀ idx bw_images tr,
    0 ≤ idx →
    idx + Z.of_nat (length page_range) ≤ num_pages →
    Forall in_percent tr →
    Forall in_percent
      (process_pages B doc threshold dpi mode compression num_pages idx
         page_range bw_images tr).2.
Proof.
  induction page_range as [|page_num rest IH];
    intros idx bw_images tr Hidx Hlength Htr; [done|].
  simpl in Hlength.
  assert (Forall in_percent
            (tr ++ [Progress (idx + 1) num_pages
                      (MsgPage (idx + 1) num_pages (page_num + 1));
                    LoadPage page_num])) as Htr1.
  { apply Forall_app. split; [done|]. repeat constructor; simpl; lia. }
  simpl. destruct (get_pixmap B doc page_num dpi) as [img|]; [|done].
  destruct (encode_page B threshold mode compression img); [|done].
  apply IH; [lia|lia|done].
Qed.

(** X12.  Every progress report of a run lies between 0 and 100 per
    cent. *)
Theorem progress_within_bounds (input_pdf output_pdf : str)
    (threshold dpi : Z) (page_range : option (list Z)) (mode : str)
    (compression : Z) (fs : filesystem) (tr : list event) :
  Forall in_percent tr →
  Forall in_percent
    (convert_pdf_to_bw B input_pdf output_pdf threshold dpi page_range mode
       compression fs tr).2.
Proof.
  intros Htr. unfold convert_pdf_to_bw.
  assert (∀ tr0 num m, 0 ≤ num ≤ 1 → Forall in_percent tr0 →
            Forall in_percent (tr0 ++ [Progress num 1 m])) as Hreport.
  { intros tr0 num m Hnum Htr0. apply Forall_app. split; [done|].
    repeat constructor; simpl; lia. }
  destruct (fs !! input_pdf) as [content|]; simpl;
    [|by apply Hreport; [lia|apply Hreport; [lia|]]].
  destruct (fitz_open B content) as [doc|]; simpl;
    [|by apply Hreport; [lia|apply Hreport; [lia|]]].
  destruct (select_pages page_range (page_count B doc))
    as [|page_num rest] eqn:Hsel;
    [by apply Hreport; [lia|apply Hreport; [lia|]]|].
  match goal with
  | |- context [process_pages B doc ?t ?d ?m ?c ?n ?i ?l ?acc ?tr] =>
      pose proof (process_pages_in_percent doc t d m c n l i acc tr)
        as Hpages;
      destruct (process_pages B doc t d m c n i l acc tr)
        as [[bw_images|] tr1]
  end; simpl in Hpages.
  - destruct (can_open_wb B output_pdf);
      [destruct (img2pdf_convert B bw_images)|];
      apply Hreport; try lia; apply Hpages; try lia;
      by apply Hreport; [lia|].
  - apply Hreport; [lia|]. apply Hpages; try lia. by apply Hreport; [lia|].
Qed.

End PipelineExtras.

Lemma only_output_written_witness :
  (convert_pdf_to_bw (byte_document true) "in.pdf" "out.pdf" 180 300 None
     "bw" 95 two_files []).1.2 !! of_string "in.pdf"
  = two_files !! of_string "in.pdf".
Proof.
  apply (only_output_written (byte_document true)).
  - vm_compute. discriminate.
  - apply (bool_decide_unpack _). vm_compute. exact I.
Defined.

Lemma pages_rasterized_in_order_witness :
  let '(ok, _, tr') :=
    convert_pdf_to_bw (byte_document true) "in.pdf" "out.pdf" 180 300
      (Some [1; 0; 1; 9]) "bw" 95 two_files [] in
  ∃ done,
    rasterized tr' = rasterized [] ++ done
    ∧ done `prefix_of` select_pages (Some [1; 0; 1; 9])
                         (page_count (byte_document true)
                            [Byte.x10; Byte.xc8])
    ∧ (ok = true → done = select_pages (Some [1; 0; 1; 9])
                            (page_count (byte_document true)
                               [Byte.x10; Byte.xc8])).
Proof.
  apply (pages_rasterized_in_order (byte_document true) "in.pdf" "out.pdf"
           180 300 (Some [1; 0; 1; 9]) "bw" 95 two_files []
           [Byte.x10; Byte.xc8] [Byte.x10; Byte.xc8]).
  - vm_compute. reflexivity.
  - reflexivity.
Defined.

Lemma output_holds_selected_pages_witness :
  ∃ bw_images pdf,
    Forall2 (fun page_num img_bytes =>
               get_pixmap (byte_document true) [Byte.x10; Byte.xc8]
                 page_num 300
                 ≫= encode_page (byte_document true) 180 "bw" 95
               = Some img_bytes)
      (select_pages (Some [1; 0]) 2) bw_images
    ∧ img2pdf_convert (byte_document true) bw_images = Some pdf
    ∧ <[of_string "out.pdf" := [Byte.xff; Byte.x00]]> two_files
        !! of_string "out.pdf" = Some pdf.
Proof.
  apply (output_holds_selected_pages (byte_document true) "in.pdf" "out.pdf"
           180 300 (Some [1; 0]) "bw" 95 two_files
           (<[of_string "out.pdf" := [Byte.xff; Byte.x00]]> two_files) []
           (snd (convert_pdf_to_bw (byte_document true) "in.pdf" "out.pdf"
                   180 300 (Some [1; 0]) "bw" 95 two_files []))
           [Byte.x10; Byte.xc8] [Byte.x10; Byte.xc8]).
  - vm_compute. reflexivity.
  - reflexivity.
  - vm_compute. reflexivity.
Defined.

Lemma parsed_pages_pass_filter_witness :
  select_pages (Some [1; 2; 3; 4]) 5 = [1; 2; 3; 4].
Proof.
  apply (parsed_pages_pass_filter "2-9" 5).
  vm_compute. reflexivity.
Defined.

Lemma progress_within_bounds_witness :
  Forall in_percent
    (convert_pdf_to_bw (byte_document true) "in.pdf" "out.pdf" 180 300 None
       "bw" 95 two_files []).2.
Proof.
  apply (progress_within_bounds (byte_document true)).
  constructor.
Defined.

(** ** More on paths *)

Section PathExtras.
Import PyStr posixpath.
#[local] Arguments Ascii.eqb : simpl never.

(** There is one way to cut a string at the last occurrence of a
    character. *)
Lemma last_occurrence_unique (c : ascii) (h h' t t' : list ascii) :
  h ++ c :: t = h' ++ c :: t' → c ∉ t → c ∉ t' → h = h' ∧ t = t'.
Proof.
  intros Heq Ht Ht'.
  apply app_eq_inv in Heq as [(k & -> & Hk)|(k & -> & Hk)].
  - destruct k as [|x k]; simpl in Hk.
    + injection Hk as ->. by rewrite app_nil_r.
    + injection Hk as -> ->. destruct Ht'. set_solver.
  - destruct k as [|x k]; simpl in Hk.
    + injection Hk as ->. by rewrite app_nil_r.
    + injection Hk as -> ->. destruct Ht. set_solver.
Qed.

Lemma rfind_last (c : ascii) (h t : list ascii) :
  c ∉ t → rfind c (h ++ c :: t) = Z.of_nat (length h).
Proof.
  intros Ht.
  destruct (rfind_split c (h ++ c :: t))
    as [[_ Hnot]|(h' & t' & Heq & -> & Ht')].
  - destruct Hnot. set_solver.
  - by apply last_occurrence_unique in Heq as [-> _].
Qed.

Lemma basename_app (h t : list ascii) :
  sep ∉ t → basename (h ++ sep :: t) = t.
Proof. intros Ht. unfold basename. by rewrite rfind_last, from_app. Qed.

Lemma basename_plain (t : list ascii) : sep ∉ t → basename t = t.
Proof.
  intros Ht. unfold basename.
  destruct (rfind_split sep t) as [[-> _]|(h & t' & -> & _ & _)]; [done|].
  destruct Ht. set_solver.
Qed.

Lemma basename_spec (p : str) :
  ∃ head, p = head ++ basename p
          ∧ (truthy head = true → endswith_sep head = true)
          ∧ sep ∉ basename p.
Proof.
  destruct (rfind_split sep p) as [[Hr Hnot]|(h & t & -> & _ & Hnot)].
  - exists []. rewrite basename_plain by done. by split_and!.
  - exists (h ++ [sep]). rewrite basename_app by done.
    split_and!; [by rewrite <- (assoc_L (++))| |done].
    intros _. unfold endswith_sep. by rewrite rev_app_distr.
Qed.

(** X13.  The base name of a path is what follows its last slash: the
    path is a head, empty or ending in a slash, followed by the base
    name, and the base name holds no slash. *)
Theorem basename_after_last_slash (p : str) :
  ∃ head, p = head ++ basename p
          ∧ (truthy head = true → endswith_sep head = true)
          ∧ sep ∉ basename p.
Proof. apply basename_spec. Qed.

Lemma from_length (h t : list ascii) :
  from (Z.of_nat (length h)) (h ++ t) = t.
Proof. unfold from. rewrite Nat2Z.id. apply drop_app_length. Qed.

Lemma splitext_spec (p : str) :
  (splitext p).1 ++ (splitext p).2 = p
  ∧ match (splitext p).2 with
    | [] => True
    | c :: t => c = extsep ∧ (extsep ∉ t) ∧ sep ∉ t
    end.
Proof.
  split; [apply splitext_app|]. unfold splitext.
  destruct (_ && _) eqn:Hcond; simpl; [|done].
  apply andb_true_iff in Hcond as [Hlt _]. apply Z.ltb_lt in Hlt.
  destruct (rfind_split extsep p) as [[Hr _]|(h & t & -> & Hr & Ht)].
  { rewrite Hr in Hlt.
    destruct (rfind_split sep p) as [[Hs _]|(? & ? & _ & Hs & _)]; lia. }
  rewrite Hr in *. rewrite from_length. split_and!; [done..|].
  destruct (rfind_split sep (h ++ extsep :: t))
    as [[_ Hnot]|(h' & t' & Heq & Hs & Ht')].
  - intros Hin. destruct Hnot. set_solver.
  - rewrite Hs in Hlt.
    apply app_eq_inv in Heq as [(k & -> & Hk)|(k & -> & Hk)].
    + destruct k as [|x k]; simpl in Hk.
      * unfold sep, extsep in Hk. discriminate.
      * injection Hk as _ ->. intros Hin. destruct Ht'. set_solver.
    + rewrite length_app in Hlt. lia.
Qed.

(** X14.  [splitext] cuts a path in two parts that give the path back;
    the extension is empty, or a dot followed by characters that are
    neither dots nor slashes. *)
Theorem splitext_extension (p : str) :
  (splitext p).1 ++ (splitext p).2 = p
  ∧ match (splitext p).2 with
    | [] => True
    | c :: t => c = extsep ∧ (extsep ∉ t) ∧ sep ∉ t
    end.
Proof. apply splitext_spec. Qed.

Lemma endswith_sep_inv (d : list ascii) :
  endswith_sep d = true → ∃ d', d = d' ++ [sep].
Proof.
  unfold endswith_sep. destruct (rev d) as [|c r] eqn:Hrev; [done|].
  simpl. intros ->%Ascii.eqb_eq. exists (rev r).
  by rewrite <- (rev_involutive d), Hrev.
Qed.

Lemma basename_join (d name : list ascii) :
  sep ∉ name → basename (join d name) = name.
Proof.
  intros Hname. unfold join. rewrite startswith_sep_not_elem by done.
  destruct d as [|c d]; simpl negb; simpl orb.
  - simpl. by apply basename_plain.
  - destruct (endswith_sep (c :: d)) eqn:Hends.
    + apply endswith_sep_inv in Hends as [d' ->].
      rewrite <- (assoc_L (++)). simpl. by apply basename_app.
    + by apply basename_app.
Qed.

End PathExtras.

Section OutputName.
Import PyStr posixpath.
Context (H : host) (F : form).

Lemma generate_output_path_join (index : nat) (input_path : str) :
  generate_output_path H F index input_path
  = join (if truthy (strip (output_dir_entry F))
          then strip (output_dir_entry F) else dirname input_path)
      (output_name H F index input_path).
Proof.
  unfold generate_output_path, output_name.
  destruct (splitext (basename input_path)) as [base ext]. simpl.
  f_equal. destruct (strip (suffix_entry F)) as [|c suffix];
    destruct (timestamp_var F); simpl;
    rewrite <- ?(assoc_L (++)); simpl; by rewrite ?app_nil_r.
Qed.

Lemma output_name_no_sep (index : nat) (input_path : str) :
  sep ∉ strip (suffix_entry F) →
  (timestamp_var F = true → sep ∉ now H index) →
  sep ∉ output_name H F index input_path.
Proof.
  intros Hsuffix Hstamp. unfold output_name.
  destruct (basename_spec input_path) as (head & _ & _ & Hbase).
  rewrite <- (splitext_app (basename input_path)) in Hbase.
  apply not_elem_of_app in Hbase as [Hroot Hext].
  rewrite !not_elem_of_app. split_and!; [done|done| |done].
  destruct (timestamp_var F); [|apply not_elem_of_nil].
  apply not_elem_of_cons. split; [done|by apply Hstamp].
Qed.

Lemma basename_generate_output_path (index : nat) (input_path : str) :
  sep ∉ strip (suffix_entry F) →
  (timestamp_var F = true → sep ∉ now H index) →
  basename (generate_output_path H F index input_path)
  = output_name H F index input_path.
Proof.
  intros Hsuffix Hstamp. rewrite generate_output_path_join.
  by apply basename_join, output_name_no_sep.
Qed.

(** X15.  When neither the suffix nor the time stamp holds a slash, the
    file the output path names is the input's name with the suffix and
    the time stamp put between its root and its extension, whatever the
    output directory is. *)
Theorem output_file_name (index : nat) (input_path : str) :
  sep ∉ strip (suffix_entry F) →
  (timestamp_var F = true → sep ∉ now H index) →
  basename (generate_output_path H F index input_path)
  = (splitext (basename input_path)).1
    ++ strip (suffix_entry F)
    ++ (if timestamp_var F then "_"%char :: now H index else [])
    ++ (splitext (basename input_path)).2.
Proof. apply basename_generate_output_path. Qed.

(** X16.  With a suffix that is not blank, or with the time stamp on,
    the output path is never the input path: the conversion does not
    write over its input. *)
Theorem output_path_spares_input (index : nat) (input_path : str) :
  sep ∉ strip (suffix_entry F) →
  (timestamp_var F = true → sep ∉ now H index) →
  truthy (strip (suffix_entry F)) = true ∨ timestamp_var F = true →
  generate_output_path H F index input_path ≠ input_path.
Proof.
  intros Hsuffix Hstamp Hlonger Heq.
  pose proof (basename_generate_output_path index input_path Hsuffix Hstamp)
    as Hname.
  rewrite Heq in Hname.
  apply (f_equal length) in Hname. unfold output_name in Hname.
  rewrite <- (splitext_app (basename input_path)) in Hname at 1.
  rewrite !length_app in Hname.
  destruct Hlonger as [Hs|Ht].
  - destruct (strip (suffix_entry F)); [done|]. simpl in Hname. lia.
  - rewrite Ht in Hname. simpl in Hname. lia.
Qed.

End OutputName.

Lemma output_file_name_witness :
  posixpath.basename
    (generate_output_path quiet_host
       (archive_form "1-2" [of_string "/home/u/scan.v2.pdf"]) 0
       "/home/u/scan.v2.pdf")
  = of_string "scan.v2_SW_20240101_120000.pdf".
Proof.
  apply (output_file_name quiet_host
           (archive_form "1-2" [of_string "/home/u/scan.v2.pdf"]) 0
           "/home/u/scan.v2.pdf").
  - apply (bool_decide_unpack _). vm_compute. exact I.
  - intros _. apply (bool_decide_unpack _). vm_compute. exact I.
Defined.

Lemma output_path_spares_input_witness :
  generate_output_path quiet_host
    (archive_form "1-2" [of_string "/archive/scan.pdf"]) 0 "/archive/scan.pdf"
  ≠ of_string "/archive/scan.pdf".
Proof.
  apply (output_path_spares_input quiet_host
           (archive_form "1-2" [of_string "/archive/scan.pdf"]) 0
           "/archive/scan.pdf").
  - apply (bool_decide_unpack _). vm_compute. exact I.
  - intros _. apply (bool_decide_unpack _). vm_compute. exact I.
  - left. reflexivity.
Defined.

(** * The batch driver

    The chain of calls that [start_conversion] sets off: when it
    returns, when the recursion limit of the interpreter ends it, and
    what it does to the files. *)

Section PipelineEvents.
Context (B : backend).

Lemma process_pages_events (doc : document B) (threshold dpi : Z)
    (mode : str) (compression num_pages : Z) (page_range : list Z) :
  ∀ idx bw_images tr,
  ∃ new,
    (process_pages B doc threshold dpi mode compression num_pages idx
       page_range bw_images tr).2 = tr ++ new
    ∧ Forall pipeline_event new.
Proof.
  induction page_range as [|page_num rest IH]; intros idx bw_images tr.
  - exists []. simpl. by rewrite app_nil_r.
  - simpl.
    assert (Forall pipeline_event
              [Progress (idx + 1) num_pages
                 (MsgPage (idx + 1) num_pages (page_num + 1));
               LoadPage page_num]) as Hstep by (by repeat constructor).
    destruct (get_pixmap B doc page_num dpi) as [img|]; [|by eexists].
    destruct (encode_page B threshold mode compression img)
      as [img_bytes|]; [|by eexists].
    destruct (IH (idx + 1) (bw_images ++ [img_bytes])
                (tr ++ [Progress (idx + 1) num_pages
                          (MsgPage (idx + 1) num_pages (page_num + 1));
                        LoadPage page_num])) as (new & -> & Hnew).
    eexists. rewrite <- (assoc_L (++)). split; [done|].
    by apply Forall_app.
Qed.

Lemma convert_pdf_to_bw_events (input_pdf output_pdf : str)
    (threshold dpi : Z) (page_range : option (list Z)) (mode : str)
    (compression : Z) (fs : filesystem) (tr : list event) :
  ∃ new,
    (convert_pdf_to_bw B input_pdf output_pdf threshold dpi page_range mode
       compression fs tr).2 = tr ++ new
    ∧ Forall pipeline_event new.
Proof.
  unfold convert_pdf_to_bw.
  assert (∀ num den m, Forall pipeline_event [Progress num den m]) as Hone
    by (by repeat constructor).
  assert (∀ a b c : list event, (a ++ b) ++ c = a ++ b ++ c) as Hassoc
    by (intros; by rewrite (assoc_L (++))).
  destruct (fs !! input_pdf) as [content|]; simpl;
    [|eexists; rewrite Hassoc; split; [done|by repeat constructor]].
  destruct (fitz_open B content) as [doc|]; simpl;
    [|eexists; rewrite Hassoc; split; [done|by repeat constructor]].
  destruct (select_pages page_range (page_count B doc))
    as [|page_num rest] eqn:Hsel;
    [eexists; rewrite Hassoc; split; [done|by repeat constructor]|].
  match goal with
  | |- context [process_pages B doc ?t ?d ?m ?c ?n ?i ?l ?acc ?tr] =>
      destruct (process_pages_events doc t d m c n l i acc tr)
        as (new & Hnew & Hevents);
      destruct (process_pages B doc t d m c n i l acc tr)
        as [[bw_images|] tr1]
  end; simpl in Hnew; subst tr1.
  - destruct (can_open_wb B output_pdf);
      [destruct (img2pdf_convert B bw_images)|];
      simpl; eexists; rewrite !Hassoc; (split; [done|]);
      repeat (apply Forall_app; split); by repeat constructor.
  - simpl. eexists. rewrite !Hassoc. split; [done|].
    repeat (apply Forall_app; split); by repeat constructor.
Qed.

Lemma convert_pdf_to_bw_keeps (input_pdf output_pdf : str)
    (threshold dpi : Z) (page_range : option (list Z)) (mode : str)
    (compression : Z) (fs : filesystem) (tr : list event) (path : str) :
  is_Some (fs !! path) →
  is_Some ((convert_pdf_to_bw B input_pdf output_pdf threshold dpi page_range
              mode compression fs tr).1.2 !! path).
Proof.
  intros Hpath.
  pose proof (convert_pdf_to_bw_files B input_pdf output_pdf threshold dpi
                page_range mode compression fs tr) as Hfiles.
  destruct (convert_pdf_to_bw _ _ _ _ _ _ _ _ _ _) as [[ok fs'] tr'].
  simpl in *.
  destruct (encoded_pages _ _ _ _ _ _ _ _) as [bw_images|];
    [|by injection Hfiles as _ ->].
  destruct (can_open_wb B output_pdf); [|by injection Hfiles as _ ->].
  destruct (img2pdf_convert B bw_images);
    injection Hfiles as _ ->; rewrite lookup_insert_is_Some;
    destruct (decide (output_pdf = path)); auto.
Qed.

(** A run as the trace shows it: the report that names the input, then
    events of the pipeline that start no new file. *)
Lemma convert_pdf_to_bw_run (input_pdf output_pdf : str)
    (threshold dpi : Z) (page_range : option (list Z)) (mode : str)
    (compression : Z) (fs : filesystem) (tr : list event) :
  ∃ ok fs' new,
    convert_pdf_to_bw B input_pdf output_pdf threshold dpi page_range mode
      compression fs tr
    = (ok, fs',
       tr ++ Progress 0 1 (MsgChecking (posixpath.basename input_pdf)) :: new)
    ∧ attempts new = []
    ∧ Forall pipeline_event new.
Proof.
  destruct (convert_pdf_to_bw_trace B input_pdf output_pdf threshold dpi
              page_range mode compression fs tr) as (new & Hnew & Hattempts).
  destruct (convert_pdf_to_bw_events input_pdf output_pdf threshold dpi
              page_range mode compression fs tr) as (new' & Hnew' & Hevents).
  destruct (convert_pdf_to_bw _ _ _ _ _ _ _ _ _ _) as [[ok fs'] tr'].
  simpl in *. subst tr'. apply app_inv_head in Hnew'. subst new'.
  exists ok, fs', new. split_and!; [done..|].
  by apply Forall_cons in Hevents as [_ ?].
Qed.

End PipelineEvents.

Section TraceFacts.

Lemma pages_of_app (tr1 tr2 : list event) :
  pages_of tr2 = [] → pages_of (tr1 ++ tr2) = pages_of tr1.
Proof.
  intros Htr2. induction tr1 as [|e tr1 IH]; simpl; [done|].
  destruct (attempt_of e); [done|]. destruct e; by rewrite ?IH.
Qed.

Lemma results_app (tr1 tr2 : list event) :
  pages_of tr2 = [] → results (tr1 ++ tr2) = results tr1 ++ results tr2.
Proof.
  intros Htr2. induction tr1 as [|e tr1 IH]; simpl; [done|].
  destruct (attempt_of e); [|done].
  by rewrite pages_of_app, IH.
Qed.

Lemma pages_of_rasterized (tr : list event) :
  attempts tr = [] → pages_of tr = rasterized tr.
Proof.
  induction tr as [|e tr IH]; [done|].
  unfold attempts, rasterized. simpl.
  destruct (attempt_of e) eqn:He; [done|]. intros Htr.
  destruct e; simpl; rewrite ?(IH Htr); done.
Qed.

Lemma results_no_attempts (tr : list event) :
  attempts tr = [] → results tr = [].
Proof.
  induction tr as [|e tr IH]; [done|].
  unfold attempts. simpl. destruct (attempt_of e); [done|]. exact IH.
Qed.

Lemma results_attempts (tr : list event) : (results tr).*1 = attempts tr.
Proof.
  unfold attempts. induction tr as [|e tr IH]; [done|].
  simpl. destruct (attempt_of e); simpl; [f_equal|]; exact IH.
Qed.

End TraceFacts.

Section DriverFacts.
Context (B : backend) (H : host) (F : form).

(** One run of the pipeline as the driver sees it. *)
Lemma run_conversion_spec (input_path output_path : str)
    (page_range : option (list Z)) (index : nat) (fs : filesystem)
    (tr : list event) (dpi : Z) :
  PyStr.int (dpi_value F) = Ok dpi →
  ∃ ok fs' new,
    convert_pdf_to_bw B input_path output_path (threshold_value F)
      dpi page_range (mode_var F) (compression_var F) fs tr
    = (ok, fs', tr ++ new)
    ∧ Forall pipeline_event new
    ∧ run_conversion B F input_path output_path page_range
        (State index fs tr)
      = Returned
          (State (S index) fs'
             (if ok && open_after_var F
              then (tr ++ new) ++ [OpenFile output_path] else tr ++ new)).
Proof.
  intros Hdpi.
  destruct (convert_pdf_to_bw_events B input_path output_path
              (threshold_value F) dpi page_range (mode_var F)
              (compression_var F) fs tr) as (new & Hnew & Hevents).
  unfold run_conversion. rewrite Hdpi. simpl.
  destruct (convert_pdf_to_bw _ _ _ _ _ _ _ _ _ _) as [[ok fs'] tr'].
  simpl in Hnew. subst tr'. by exists ok, fs', new.
Qed.

(** The worker either ends at [int()], in the state it started from, or
    runs the pipeline and moves the index on. *)
Lemma run_conversion_cases (input_path output_path : str)
    (page_range : option (list Z)) (st : state) :
  (∃ e, PyStr.int (dpi_value F) = Raise e
        ∧ run_conversion B F input_path output_path page_range st
          = Raised e st)
  ∨ (∃ dpi, PyStr.int (dpi_value F) = Ok dpi
            ∧ ∃ st', run_conversion B F input_path output_path page_range st
                     = Returned st').
Proof.
  unfold run_conversion.
  destruct (PyStr.int (dpi_value F)) as [dpi|e]; [right|left; by exists e].
  exists dpi. split; [done|].
  destruct (convert_pdf_to_bw _ _ _ _ _ _ _ _ _ _) as [[ok fs'] tr'].
  by eexists.
Qed.

Lemma analyse_page_range_attempts (input_path : str) (fs : filesystem) :
  attempts (analyse_page_range B F input_path fs).2 = []
  ∧ rasterized (analyse_page_range B F input_path fs).2 = []
  ∧ Forall driver_event (analyse_page_range B F input_path fs).2.
Proof.
  unfold analyse_page_range.
  destruct (PyStr.truthy _); [|done].
  destruct (fs !! input_path ≫= fitz_open B) as [doc|];
    [|by repeat constructor].
  destruct (parse_page_range _ _); by repeat constructor.
Qed.

(** The driver hands the parser's list to the pipeline as it is, the
    empty list too. *)
Lemma analyse_page_range_parsed (input_path : str) (fs : filesystem)
    (doc : document B) (pages : list Z) :
  PyStr.truthy (PyStr.strip (page_range_entry F)) = true →
  fs !! input_path ≫= fitz_open B = Some doc →
  parse_page_range (PyStr.strip (page_range_entry F)) (page_count B doc)
  = Ok pages →
  analyse_page_range B F input_path fs = (Some pages, []).
Proof.
  intros Hentry Hdoc Hparse. unfold analyse_page_range.
  by rewrite Hentry, Hdoc, Hparse.
Qed.

Lemma asked_events (index : nat) (input_path : str) (fs : filesystem) :
  attempts (asked H F index input_path fs) = []
  ∧ rasterized (asked H F index input_path fs) = []
  ∧ Forall driver_event (asked H F index input_path fs).
Proof.
  unfold asked. destruct (fs !! _); [|done].
  destruct (is_ask F); by repeat constructor.
Qed.

(** ** One call of [convert_next_file] *)

(** A call that has room on the stack and a file to take up does what
    [take_up] says, and the next call follows: one frame deeper after a
    skip, on a fresh stack after a run of the pipeline. *)
Lemma convert_next_file_step (fuel depth total : nat) (st : state)
    (input_path : str) (dpi : Z) :
  PyStr.int (dpi_value F) = Ok dpi →
  (depth < recursion_limit H)%nat →
  (current_file_index st < total)%nat →
  input_files F !! current_file_index st = Some input_path →
  convert_next_file B H F (S fuel) depth total st
  = convert_next_file B H F fuel
      (if skipped H F (current_file_index st) input_path (files st)
       then S depth else 0%nat)
      total (take_up B H F dpi input_path st).
Proof.
  intros Hdpi Hdepth Hindex Hinput. simpl.
  rewrite bool_decide_eq_false_2 by lia.
  rewrite bool_decide_eq_false_2 by lia.
  rewrite Hinput. unfold take_up, skipped, asked, skip_file, run_conversion.
  rewrite Hdpi.
  destruct (files st !! generate_output_path H F (current_file_index st)
                          input_path) as [existing|].
  - destruct (is_ask F).
    + destruct (askyesno H (current_file_index st)); simpl; [|done].
      destruct (analyse_page_range B F input_path (files st))
        as [page_range log].
      by destruct (convert_pdf_to_bw _ _ _ _ _ _ _ _ _ _) as [[ok fs'] tr'].
    + rewrite app_nil_r. destruct (is_skip F); [done|].
      destruct (analyse_page_range B F input_path (files st))
        as [page_range log].
      by destruct (convert_pdf_to_bw _ _ _ _ _ _ _ _ _ _) as [[ok fs'] tr'].
  - rewrite app_nil_r.
    destruct (analyse_page_range B F input_path (files st))
      as [page_range log].
    by destruct (convert_pdf_to_bw _ _ _ _ _ _ _ _ _ _) as [[ok fs'] tr'].
Qed.

Lemma convert_next_file_done (fuel depth total : nat) (st : state) :
  (depth < recursion_limit H)%nat →
  (total ≤ current_file_index st)%nat →
  convert_next_file B H F (S fuel) depth total st
  = Some (Returned (State (current_file_index st) (files st)
                      (trace st ++ [Progress 1 1 MsgAllDone]))).
Proof.
  intros Hdepth Hdone. simpl.
  rewrite bool_decide_eq_false_2 by lia.
  by rewrite bool_decide_eq_true_2.
Qed.

Lemma convert_next_file_no_room (fuel depth total : nat) (st : state) :
  (recursion_limit H ≤ depth)%nat →
  convert_next_file B H F (S fuel) depth total st
  = Some (Raised RecursionError st).
Proof. intros Hdepth. simpl. by rewrite bool_decide_eq_true_2. Qed.

(** ** The files taken up *)

Lemma take_up_index (dpi : Z) (input_path : str) (st : state) :
  current_file_index (take_up B H F dpi input_path st)
  = S (current_file_index st).
Proof.
  unfold take_up. destruct (skipped _ _ _ _ _); [done|].
  destruct (analyse_page_range B F input_path (files st)) as [page_range log].
  by destruct (convert_pdf_to_bw _ _ _ _ _ _ _ _ _ _) as [[ok fs'] tr'].
Qed.

Lemma taken_up_snoc (dpi : Z) (inputs : list str) (input_path : str)
    (st : state) :
  taken_up B H F dpi (inputs ++ [input_path]) st
  = take_up B H F dpi input_path (taken_up B H F dpi inputs st).
Proof. unfold taken_up. by rewrite foldl_app. Qed.

Lemma taken_up_app (dpi : Z) (inputs1 inputs2 : list str) (st : state) :
  taken_up B H F dpi (inputs1 ++ inputs2) st
  = taken_up B H F dpi inputs2 (taken_up B H F dpi inputs1 st).
Proof. unfold taken_up. by rewrite foldl_app. Qed.

Lemma taken_up_index (dpi : Z) (inputs : list str) :
  ∀ st,
  current_file_index (taken_up B H F dpi inputs st)
  = (current_file_index st + length inputs)%nat.
Proof.
  induction inputs as [|input_path inputs IH]; intros st; simpl; [lia|].
  change (taken_up B H F dpi (input_path :: inputs) st)
    with (taken_up B H F dpi inputs (take_up B H F dpi input_path st)).
  rewrite IH, take_up_index. lia.
Qed.

(** What one file adds to the trace and to the results, and what it
    does to the files. *)
Lemma take_up_spec (dpi : Z) (input_path : str) (st : state) :
  let index := current_file_index st in
  let output_path := generate_output_path H F index input_path in
  ∃ new pages,
    trace (take_up B H F dpi input_path st) = trace st ++ new
    ∧ pages_of new = []
    ∧ results new
      = [(if skipped H F index input_path (files st)
          then Skipped (posixpath.basename input_path)
          else Converted (posixpath.basename input_path), pages)]
    ∧ rasterized new = pages
    ∧ (skipped H F index input_path (files st) = true →
       pages = []
       ∧ files (take_up B H F dpi input_path st) = files st
       ∧ new = asked H F index input_path (files st)
               ++ [Log (MsgSkip (posixpath.basename input_path))])
    ∧ (skipped H F index input_path (files st) = false →
       ∃ page_range tr,
         files (take_up B H F dpi input_path st)
         = (convert_pdf_to_bw B input_path output_path (threshold_value F)
              dpi page_range (mode_var F) (compression_var F) (files st)
              tr).1.2).
Proof.
  intros index output_path. unfold take_up. fold index. fold output_path.
  destruct (asked_events index input_path (files st))
    as (Hasked & Hasked' & _).
  destruct (skipped H F index input_path (files st)) eqn:Hskipped.
  - simpl. eexists _, []. rewrite <- (assoc_L (++)).
    split_and!; [done| | | | |done].
    + apply pages_of_rasterized in Hasked as Hpages. rewrite Hasked' in Hpages.
      by rewrite pages_of_app.
    + rewrite results_app by done.
      by rewrite (results_no_attempts _ Hasked).
    + rewrite rasterized_app, Hasked'. done.
    + done.
  - destruct (analyse_page_range_attempts input_path (files st))
      as (Hlog & Hlog' & _).
    destruct (analyse_page_range B F input_path (files st))
      as [page_range log]. simpl in Hlog, Hlog'.
    destruct (convert_pdf_to_bw_run B input_path output_path
                (threshold_value F) dpi page_range (mode_var F)
                (compression_var F) (files st)
                ((trace st ++ asked H F index input_path (files st)) ++ log))
      as (ok & fs' & new & Hrun & Hnew & _).
    rewrite Hrun. simpl.
    set (opened := if ok && open_after_var F then [OpenFile output_path]
                   else []).
    assert (attempts (new ++ opened) = []) as Hrest.
    { rewrite attempts_app, Hnew. unfold opened.
      by destruct (ok && open_after_var F). }
    exists ((asked H F index input_path (files st) ++ log)
            ++ Progress 0 1 (MsgChecking (posixpath.basename input_path))
               :: new ++ opened), (rasterized (new ++ opened)).
    assert (attempts (asked H F index input_path (files st) ++ log) = [])
      as Hbefore by (by rewrite attempts_app, Hasked, Hlog).
    assert (rasterized (asked H F index input_path (files st) ++ log) = [])
      as Hbefore' by (by rewrite rasterized_app, Hasked', Hlog').
    split_and!.
    + unfold opened. destruct (ok && open_after_var F);
        rewrite <- ?(assoc_L (++)); simpl; by rewrite ?app_nil_r.
    + rewrite pages_of_app; [|done].
      apply pages_of_rasterized in Hbefore. by rewrite Hbefore.
    + rewrite results_app by done.
      rewrite (results_no_attempts _ Hbefore). simpl.
      rewrite (results_no_attempts _ Hrest).
      by rewrite (pages_of_rasterized _ Hrest).
    + rewrite rasterized_app, Hbefore'. done.
    + done.
    + intros _. eexists page_range, _. by rewrite Hrun.
Qed.

End DriverFacts.

Section BatchFacts.
Context (B : backend) (C : json_codec) (H : host) (F : form).

Lemma batch_cons (dpi : Z) (input_path : str) (inputs : list str)
    (st : state) :
  batch B H F dpi (input_path :: inputs) st
  = batch B H F dpi inputs (take_up B H F dpi input_path st).
Proof. reflexivity. Qed.

Lemma skipped_policy (index : nat) (input_path : str) (fs : filesystem) :
  is_ask F = false → is_skip F = false →
  skipped H F index input_path fs = false.
Proof.
  intros Hask Hskip. unfold skipped. rewrite Hask, Hskip.
  by destruct (fs !! _).
Qed.

(** The chain of calls runs the batch to its end when the stack has room
    for it: for one call per file that is left and one more, or, under
    a policy that skips no file, for a single call. *)
Lemma convert_next_file_batch (dpi : Z) :
  PyStr.int (dpi_value F) = Ok dpi →
  ∀ fuel depth st,
    (current_file_index st ≤ length (input_files F))%nat →
    (length (input_files F) - current_file_index st < fuel)%nat →
    (depth + (length (input_files F) - current_file_index st)
     < recursion_limit H)%nat
    ∨ (is_ask F = false ∧ is_skip F = false
       ∧ (depth < recursion_limit H)%nat) →
    convert_next_file B H F fuel depth (length (input_files F)) st
    = Some (Returned
              (batch B H F dpi
                 (drop (current_file_index st) (input_files F)) st)).
Proof.
  intros Hdpi.
  induction fuel as [|fuel IH]; intros depth st Hle Hfuel Hroom; [lia|].
  assert (depth < recursion_limit H)%nat as Hdepth
    by (destruct Hroom as [?|(_ & _ & ?)]; lia).
  destruct (decide (length (input_files F) ≤ current_file_index st)%nat)
    as [Hdone|Hmore].
  { rewrite convert_next_file_done by done. by rewrite drop_ge. }
  destruct (lookup_lt_is_Some_2 (input_files F) (current_file_index st))
    as [input_path Hinput]; [lia|].
  rewrite (convert_next_file_step B H F fuel depth _ st input_path dpi)
    by (done || lia).
  rewrite (drop_S _ _ _ Hinput), batch_cons.
  rewrite IH; rewrite ?take_up_index; [done|lia|lia|].
  destruct (skipped H F (current_file_index st) input_path (files st))
    eqn:Hskipped.
  - destruct Hroom as [Hroom|(Hask & Hskip & _)]; [left; lia|].
    by rewrite skipped_policy in Hskipped.
  - destruct Hroom as [Hroom|(Hask & Hskip & _)]; [left; lia|].
    right. split_and!; [done..|lia].
Qed.

(** ** [save_app_settings] *)

Lemma save_app_settings_ok (fs fs1 : filesystem) :
  save_app_settings C F fs = (None, fs1) →
  ∃ dpi,
    PyStr.int (dpi_value F) = Ok dpi
    ∧ save_settings C (app_settings F dpi) fs = (true, fs1).
Proof.
  unfold save_app_settings.
  destruct (PyStr.int (dpi_value F)) as [dpi|e]; [|done].
  destruct (save_settings C (app_settings F dpi) fs) as [[] fs'] eqn:Hsave;
    intros [= <-]. by exists dpi.
Qed.

Lemma save_app_settings_files (fs : filesystem) :
  (save_app_settings C F fs).2 = fs
  ∨ ∃ written,
      (save_app_settings C F fs).2 = <[SETTINGS_FILE := written]> fs.
Proof.
  unfold save_app_settings, save_settings.
  destruct (PyStr.int (dpi_value F)) as [dpi|e]; [|by left].
  destruct (settings_writable C); [|by left].
  destruct (json_dump C (app_settings F dpi)) as [written ok].
  right. by exists written.
Qed.

Lemma save_app_settings_elsewhere (fs : filesystem) (path : str) :
  path ≠ SETTINGS_FILE →
  (save_app_settings C F fs).2 !! path = fs !! path.
Proof.
  intros Hpath.
  destruct (save_app_settings_files fs) as [->|[written ->]]; [done|].
  by rewrite lookup_insert_ne.
Qed.

Lemma save_app_settings_keeps (fs : filesystem) (path : str) :
  is_Some (fs !! path) →
  is_Some ((save_app_settings C F fs).2 !! path).
Proof.
  intros Hpath.
  destruct (save_app_settings_files fs) as [->|[written ->]]; [done|].
  rewrite lookup_insert_is_Some.
  destruct (decide (SETTINGS_FILE = path)); auto.
Qed.

(** A batch that has a file, settings that can be saved and room on the
    stack is the batch of the specification. *)
Lemma start_conversion_batch (fuel : nat) (fs fs1 : filesystem) :
  input_files F ≠ [] →
  save_app_settings C F fs = (None, fs1) →
  (length (input_files F) < fuel)%nat →
  (length (input_files F) < recursion_limit H)%nat
  ∨ (is_ask F = false ∧ is_skip F = false ∧ (0 < recursion_limit H)%nat) →
  ∃ dpi,
    PyStr.int (dpi_value F) = Ok dpi
    ∧ start_conversion B C H F fuel fs
      = Some (Returned (batch B H F dpi (input_files F) (State 0 fs1 []))).
Proof.
  intros Hfiles Hsave Hfuel Hroom.
  destruct (save_app_settings_ok fs fs1 Hsave) as (dpi & Hdpi & _).
  exists dpi. split; [done|]. unfold start_conversion. rewrite Hsave.
  destruct (input_files F) as [|input_path rest] eqn:Hinputs; [done|].
  rewrite <- Hinputs in *.
  rewrite (convert_next_file_batch dpi Hdpi); simpl; [done|lia|lia|].
  destruct Hroom as [?|?]; [left; lia|by right].
Qed.

(** ** What a batch keeps *)

(** What holds before a chain of calls and is kept by every log line of
    the driver and by every run of the pipeline that [convert_next_file]
    allows, holds when the chain is over, however it ends. *)
Lemma batch_invariant (Inv : filesystem → list event → Prop) :
  (∀ fs tr e, driver_event e → Inv fs tr → Inv fs (tr ++ [e])) →
  (∀ index input_path page_range dpi fs tr ok fs' new,
     input_files F !! index = Some input_path →
     may_write H F index input_path fs →
     PyStr.int (dpi_value F) = Ok dpi →
     convert_pdf_to_bw B input_path
       (generate_output_path H F index input_path) (threshold_value F) dpi
       page_range (mode_var F) (compression_var F) fs tr
     = (ok, fs', tr ++ new) →
     Forall pipeline_event new →
     Inv fs tr →
     Inv fs' (tr ++ new)
     ∧ (ok = true → open_after_var F = true →
        Inv fs' ((tr ++ new)
                 ++ [OpenFile (generate_output_path H F index input_path)]))) →
  ∀ fuel depth total st r,
    Inv (files st) (trace st) →
    convert_next_file B H F fuel depth total st = Some r →
    Inv (files (state_of r)) (trace (state_of r)).
Proof.
  intros Hevent Hrun.
  induction fuel as [|fuel IH]; intros depth total st r Hinv; [done|].
  simpl. destruct (bool_decide _); [by intros [= <-]|].
  destruct (bool_decide _).
  { intros [= <-]. simpl. by apply Hevent. }
  destruct (input_files F !! current_file_index st)
    as [input_path|] eqn:Hinput; [|by intros [= <-]].
  assert (∀ tr, Inv (files st) tr →
            may_write H F (current_file_index st) input_path (files st) →
            (let '(page_range, log) :=
               analyse_page_range B F input_path (files st) in
             match run_conversion B F input_path
                     (generate_output_path H F (current_file_index st)
                        input_path) page_range
                     (State (current_file_index st) (files st) (tr ++ log))
             with
             | Returned st' => convert_next_file B H F fuel 0 total st'
             | Raised e st' => Some (Raised e st')
             end) = Some r →
            Inv (files (state_of r)) (trace (state_of r))) as Hconvert.
  { intros tr Htr Hmay.
    assert (Inv (files st)
              (tr ++ (analyse_page_range B F input_path (files st)).2))
      as Hlog.
    { unfold analyse_page_range. destruct (PyStr.truthy _);
        [|by rewrite app_nil_r].
      destruct (files st !! input_path ≫= fitz_open B) as [doc|];
        [|by apply Hevent].
      destruct (parse_page_range _ _); [by rewrite app_nil_r|by apply Hevent]. }
    destruct (analyse_page_range B F input_path (files st))
      as [page_range log]. simpl in Hlog.
    destruct (run_conversion_cases B F input_path
                (generate_output_path H F (current_file_index st) input_path)
                page_range
                (State (current_file_index st) (files st) (tr ++ log)))
      as [(e & _ & ->)|(dpi & Hdpi & _)]; [by intros [= <-]|].
    destruct (run_conversion_spec B F input_path
                (generate_output_path H F (current_file_index st)
                   input_path) page_range (current_file_index st)
                (files st) (tr ++ log) dpi Hdpi)
      as (ok & fs' & new & Hpipeline & Hnew & ->).
    apply IH. simpl.
    destruct (Hrun _ _ _ _ _ _ _ _ _ Hinput Hmay Hdpi Hpipeline Hnew Hlog)
      as [Hkeep Hopen].
    destruct ok; [|done]. simpl.
    destruct (open_after_var F); [by apply Hopen|done]. }
  destruct (files st !! generate_output_path H F (current_file_index st)
                          input_path) as [existing|] eqn:Hexists;
    [|apply Hconvert; [done|by left]].
  destruct (is_ask F) eqn:Hask.
  - destruct (askyesno H (current_file_index st)) eqn:Hanswer; simpl.
    + apply Hconvert; [by apply Hevent|right; by left].
    + apply IH. simpl. apply Hevent; [done|]. by apply Hevent.
  - destruct (is_skip F) eqn:Hskip.
    + apply IH. simpl. by apply Hevent.
    + apply Hconvert; [done|right; by right].
Qed.

Lemma start_conversion_invariant (Inv : filesystem → list event → Prop) :
  (∀ fs tr e, driver_event e → Inv fs tr → Inv fs (tr ++ [e])) →
  (∀ index input_path page_range dpi fs tr ok fs' new,
     input_files F !! index = Some input_path →
     may_write H F index input_path fs →
     PyStr.int (dpi_value F) = Ok dpi →
     convert_pdf_to_bw B input_path
       (generate_output_path H F index input_path) (threshold_value F) dpi
       page_range (mode_var F) (compression_var F) fs tr
     = (ok, fs', tr ++ new) →
     Forall pipeline_event new →
     Inv fs tr →
     Inv fs' (tr ++ new)
     ∧ (ok = true → open_after_var F = true →
        Inv fs' ((tr ++ new)
                 ++ [OpenFile (generate_output_path H F index input_path)]))) →
  ∀ fuel fs r,
    Inv fs [] →
    Inv (save_app_settings C F fs).2 [] →
    start_conversion B C H F fuel fs = Some r →
    Inv (files (state_of r)) (trace (state_of r)).
Proof.
  intros Hevent Hrun fuel fs r Hinv Hsaved Hstart.
  assert (start_conversion B C H F fuel fs
          = Some (Returned (State 0 fs [Log MsgNoFiles]))
          ∨ (∃ e, start_conversion B C H F fuel fs
                  = Some (Raised e (State 0 (save_app_settings C F fs).2 [])))
          ∨ start_conversion B C H F fuel fs
            = convert_next_file B H F fuel 0 (length (input_files F))
                (State 0 (save_app_settings C F fs).2 []))
    as [Hnone|[[e Hraised]|Hsome]].
  { unfold start_conversion. destruct (input_files F); [by left|].
    destruct (save_app_settings C F fs) as [[e|] fs1]; right;
      [left; by exists e|by right]. }
  - rewrite Hnone in Hstart. injection Hstart as <-. simpl.
    by apply (Hevent fs [] (Log MsgNoFiles)).
  - rewrite Hraised in Hstart. by injection Hstart as <-.
  - rewrite Hsome in Hstart.
    by apply (batch_invariant Inv Hevent Hrun) in Hstart.
Qed.

(** ** A chain of skips *)

(** Under the policy to skip, while every output file exists, each call
    skips its file and calls the next; the call that the stack has no
    room for raises, in the state the skips before it have left. *)
Lemma skip_chain (fs : filesystem) :
  is_ask F = false → is_skip F = true →
  (∀ index input_path,
     input_files F !! index = Some input_path →
     is_Some (fs !! generate_output_path H F index input_path)) →
  ∀ fuel depth index tr,
    (depth ≤ recursion_limit H)%nat →
    (recursion_limit H - depth < fuel)%nat →
    (index + (recursion_limit H - depth) ≤ length (input_files F))%nat →
    convert_next_file B H F fuel depth (length (input_files F))
      (State index fs tr)
    = Some (Raised RecursionError
              (State (index + (recursion_limit H - depth)) fs
                 (tr ++ ((fun input_path =>
                            Log (MsgSkip (posixpath.basename input_path)))
                         <$> take (recursion_limit H - depth)
                               (drop index (input_files F)))))).
Proof.
  intros Hask Hskip Hexist.
  induction fuel as [|fuel IH]; intros depth index tr Hdepth Hfuel Hfiles;
    [lia|].
  destruct (decide (recursion_limit H ≤ depth)%nat) as [Hfull|Hroom].
  { rewrite convert_next_file_no_room by done.
    replace (recursion_limit H - depth)%nat with 0%nat by lia.
    simpl. by rewrite Nat.add_0_r, app_nil_r. }
  destruct (lookup_lt_is_Some_2 (input_files F) index)
    as [input_path Hinput]; [lia|].
  destruct (Hexist index input_path Hinput) as [existing Hexisting].
  simpl. rewrite bool_decide_eq_false_2 by done.
  rewrite bool_decide_eq_false_2 by lia.
  rewrite Hinput, Hexisting, Hask, Hskip. unfold skip_file. simpl.
  rewrite IH by lia.
  replace (recursion_limit H - depth)%nat
    with (S (recursion_limit H - S depth)) by lia.
  rewrite (drop_S _ _ _ Hinput). simpl.
  rewrite <- (assoc_L (++)). simpl.
  do 3 f_equal. lia.
Qed.

End BatchFacts.

Section PolicyFacts.
Context (F : form).

Lemma policy_skip :
  overwrite F = of_string "skip" → is_ask F = false ∧ is_skip F = true.
Proof.
  intros Hpolicy. unfold is_ask, is_skip. rewrite Hpolicy.
  split; [by apply bool_decide_eq_false_2|by apply bool_decide_eq_true_2].
Qed.

Lemma policy_ask :
  overwrite F = of_string "ask" → is_ask F = true.
Proof.
  intros Hpolicy. unfold is_ask. rewrite Hpolicy.
  by apply bool_decide_eq_true_2.
Qed.

Lemma policy_other :
  overwrite F ≠ of_string "ask" → overwrite F ≠ of_string "skip" →
  is_ask F = false ∧ is_skip F = false.
Proof.
  intros Hask Hskip. unfold is_ask, is_skip.
  split; by apply bool_decide_eq_false_2.
Qed.

End PolicyFacts.

Section TakenUp.
Context (B : backend) (H : host) (F : form).

Lemma taken_up_cons (dpi : Z) (input_path : str) (inputs : list str)
    (st : state) :
  taken_up B H F dpi (input_path :: inputs) st
  = taken_up B H F dpi inputs (take_up B H F dpi input_path st).
Proof. reflexivity. Qed.

(** The files taken up add their events to the trace, and one result
    each. *)
Lemma taken_up_spec (dpi : Z) (inputs : list str) :
  ∀ st,
  ∃ new,
    trace (taken_up B H F dpi inputs st) = trace st ++ new
    ∧ pages_of new = []
    ∧ length (results new) = length inputs.
Proof.
  induction inputs as [|input_path inputs IH]; intros st.
  { exists []. by rewrite app_nil_r. }
  rewrite taken_up_cons.
  destruct (take_up_spec B H F dpi input_path st)
    as (new1 & pages & Htrace1 & Hpages1 & Hresults1 & _).
  destruct (IH (take_up B H F dpi input_path st))
    as (new2 & Htrace2 & Hpages2 & Hresults2).
  exists (new1 ++ new2). split_and!.
  - by rewrite Htrace2, Htrace1, <- (assoc_L (++)).
  - by rewrite pages_of_app.
  - rewrite results_app by done.
    rewrite length_app, Hresults1, Hresults2. done.
Qed.

Lemma take_up_keeps (dpi : Z) (input_path : str) (st : state) (path : str) :
  is_Some (files st !! path) →
  is_Some (files (take_up B H F dpi input_path st) !! path).
Proof.
  intros Hpath.
  destruct (take_up_spec B H F dpi input_path st)
    as (new & pages & _ & _ & _ & _ & Hskip & Hconvert).
  destruct (skipped H F (current_file_index st) input_path (files st)).
  - destruct Hskip as (_ & -> & _); done.
  - destruct Hconvert as (page_range & tr & ->); [done|].
    by apply convert_pdf_to_bw_keeps.
Qed.

Lemma taken_up_keeps (dpi : Z) (inputs : list str) (path : str) :
  ∀ st,
  is_Some (files st !! path) →
  is_Some (files (taken_up B H F dpi inputs st) !! path).
Proof.
  induction inputs as [|input_path inputs IH]; intros st Hpath; [done|].
  rewrite taken_up_cons. by apply IH, take_up_keeps.
Qed.

Lemma take_up_elsewhere (dpi : Z) (input_path : str) (st : state)
    (path : str) :
  generate_output_path H F (current_file_index st) input_path ≠ path →
  files (take_up B H F dpi input_path st) !! path = files st !! path.
Proof.
  intros Hpath.
  destruct (take_up_spec B H F dpi input_path st)
    as (new & pages & _ & _ & _ & _ & Hskip & Hconvert).
  destruct (skipped H F (current_file_index st) input_path (files st)).
  - destruct Hskip as (_ & -> & _); done.
  - destruct Hconvert as (page_range & tr & ->); [done|].
    by apply convert_pdf_to_bw_elsewhere.
Qed.

Lemma taken_up_elsewhere (dpi : Z) (inputs : list str) (path : str) :
  ∀ st,
  (∀ k input_path,
     inputs !! k = Some input_path →
     generate_output_path H F (current_file_index st + k) input_path
     ≠ path) →
  files (taken_up B H F dpi inputs st) !! path = files st !! path.
Proof.
  induction inputs as [|input_path inputs IH]; intros st Hpath; [done|].
  rewrite taken_up_cons, IH.
  - apply take_up_elsewhere.
    specialize (Hpath 0%nat input_path eq_refl).
    by rewrite Nat.add_0_r in Hpath.
  - intros k q Hq. rewrite take_up_index.
    specialize (Hpath (S k) q Hq).
    by replace (S (current_file_index st) + k)%nat
      with (current_file_index st + S k)%nat by lia.
Qed.

(** The file at position [i] of the batch: the state it is taken up in,
    its entry in the results and its events in the trace. *)
Lemma taken_up_lookup (dpi : Z) (inputs : list str) (st : state) (i : nat)
    (input_path : str) :
  inputs !! i = Some input_path →
  results (trace st) = [] →
  pages_of (trace st) = [] →
  let st_i := taken_up B H F dpi (take i inputs) st in
  current_file_index st_i = (current_file_index st + i)%nat
  ∧ (∀ path, is_Some (files st !! path) → is_Some (files st_i !! path))
  ∧ trace (take_up B H F dpi input_path st_i)
    `prefix_of` trace (taken_up B H F dpi inputs st)
  ∧ ∃ pages,
      results (trace (taken_up B H F dpi inputs st)) !! i
      = Some (if skipped H F (current_file_index st_i) input_path
                   (files st_i)
              then Skipped (posixpath.basename input_path)
              else Converted (posixpath.basename input_path), pages)
      ∧ (skipped H F (current_file_index st_i) input_path (files st_i)
         = true → pages = []).
Proof.
  intros Hinput Hresults Hpages st_i.
  assert (i < length inputs)%nat as Hi by (by eapply lookup_lt_Some).
  split_and!.
  - unfold st_i. rewrite taken_up_index, length_take. lia.
  - intros path Hpath. by apply taken_up_keeps.
  - rewrite <- (take_drop_middle inputs i input_path Hinput).
    rewrite taken_up_app, taken_up_cons. fold st_i.
    destruct (taken_up_spec dpi (drop (S i) inputs)
                (take_up B H F dpi input_path st_i)) as (new & -> & _).
    by apply prefix_app_r.
  - rewrite <- (take_drop_middle inputs i input_path Hinput).
    rewrite taken_up_app, taken_up_cons. fold st_i.
    destruct (taken_up_spec dpi (take i inputs) st)
      as (new1 & Htrace1 & Hpages1 & Hlength1). fold st_i in Htrace1.
    destruct (take_up_spec B H F dpi input_path st_i)
      as (new & pages & Htrace & Hpages' & Hresults' & _ & Hskip & _).
    destruct (taken_up_spec dpi (drop (S i) inputs)
                (take_up B H F dpi input_path st_i))
      as (new2 & Htrace2 & Hpages2 & _).
    exists pages. split.
    + rewrite Htrace2, Htrace, Htrace1.
      rewrite !results_app by done.
      rewrite Hresults, Hresults'. simpl.
      rewrite length_take in Hlength1.
      rewrite lookup_app_l
        by (rewrite length_app; simpl; lia).
      rewrite lookup_app_r by lia.
      by replace (i - length (results new1))%nat with 0%nat by lia.
    + intros Hskipped. by destruct (Hskip Hskipped) as (-> & _).
Qed.

(** The batch has a result for every file, and ends with the report
    that it is complete. *)
Lemma batch_spec (dpi : Z) (inputs : list str) (st : state) :
  results (trace st) = [] →
  pages_of (trace st) = [] →
  current_file_index (batch B H F dpi inputs st)
  = (current_file_index st + length inputs)%nat
  ∧ files (batch B H F dpi inputs st)
    = files (taken_up B H F dpi inputs st)
  ∧ trace (batch B H F dpi inputs st)
    = trace (taken_up B H F dpi inputs st) ++ [Progress 1 1 MsgAllDone]
  ∧ results (trace (batch B H F dpi inputs st))
    = results (trace (taken_up B H F dpi inputs st))
  ∧ length (results (trace (batch B H F dpi inputs st))) = length inputs.
Proof.
  intros Hresults Hpages. unfold batch. simpl.
  rewrite taken_up_index. split_and!; [done..| |].
  - rewrite results_app by done. simpl. by rewrite app_nil_r.
  - rewrite results_app by done. simpl. rewrite app_nil_r.
    destruct (taken_up_spec dpi inputs st) as (new & -> & Hnew & Hlength).
    rewrite results_app by done. by rewrite Hresults.
Qed.

End TakenUp.

Section SkipLines.

Lemma skip_lines_attempts (inputs : list str) :
  attempts ((fun input_path => Log (MsgSkip (posixpath.basename input_path)))
            <$> inputs)
  = (fun input_path => Skipped (posixpath.basename input_path)) <$> inputs.
Proof.
  unfold attempts. induction inputs as [|input_path inputs IH]; [done|].
  simpl. f_equal. exact IH.
Qed.

Lemma skip_lines_rasterized (inputs : list str) :
  rasterized
    ((fun input_path => Log (MsgSkip (posixpath.basename input_path)))
     <$> inputs) = [].
Proof.
  unfold rasterized. induction inputs as [|input_path inputs IH]; done.
Qed.

Lemma skip_lines_results (inputs : list str) :
  results ((fun input_path => Log (MsgSkip (posixpath.basename input_path)))
           <$> inputs)
  = (fun input_path => (Skipped (posixpath.basename input_path), []))
    <$> inputs.
Proof.
  induction inputs as [|input_path inputs IH]; [done|].
  simpl. f_equal; [|exact IH]. by destruct inputs.
Qed.

End SkipLines.

Section DriverClaims.
Context (B : backend) (C : json_codec) (H : host) (F : form).

Lemma start_conversion_saved (fuel : nat) (fs fs1 : filesystem) :
  input_files F ≠ [] →
  save_app_settings C F fs = (None, fs1) →
  start_conversion B C H F fuel fs
  = convert_next_file B H F fuel 0 (length (input_files F)) (State 0 fs1 []).
Proof.
  intros Hfiles Hsave. unfold start_conversion. rewrite Hsave.
  by destruct (input_files F).
Qed.

(** A batch of files that are all skipped, longer than the stack has
    room for: the chain of calls ends at the recursion limit. *)
Lemma start_conversion_skip_chain (fuel : nat) (fs fs1 : filesystem) :
  overwrite F = of_string "skip" →
  save_app_settings C F fs = (None, fs1) →
  (∀ index input_path,
     input_files F !! index = Some input_path →
     is_Some (fs1 !! generate_output_path H F index input_path)) →
  (recursion_limit H < length (input_files F))%nat →
  (recursion_limit H < fuel)%nat →
  start_conversion B C H F fuel fs
  = Some (Raised RecursionError
            (State (recursion_limit H) fs1
               ((fun input_path =>
                   Log (MsgSkip (posixpath.basename input_path)))
                <$> take (recursion_limit H) (input_files F)))).
Proof.
  intros [Hask Hskip]%policy_skip Hsave Hexist Hlong Hfuel.
  assert (input_files F ≠ []) as Hfiles
    by (intros Hnil; rewrite Hnil in Hlong; simpl in Hlong; lia).
  rewrite (start_conversion_saved fuel fs fs1) by done.
  rewrite (skip_chain B H F fs1 Hask Hskip Hexist) by lia.
  by rewrite Nat.sub_0_r.
Qed.

(** C5 (the code diverges).  A batch does not always reach its last
    file.  Under the policy to skip, when the output files of a batch
    exist and the batch has more files than the interpreter allows
    nested calls, [start_conversion] ends in [RecursionError]: the index
    stands at the recursion limit, the files before it are recorded as
    skipped, those from it on are never taken up, and the report that
    the batch is complete is never made. *)
Theorem long_skip_chain_stops_batch (fuel : nat) (fs fs1 : filesystem) :
  overwrite F = of_string "skip" →
  save_app_settings C F fs = (None, fs1) →
  (∀ index input_path,
     input_files F !! index = Some input_path →
     is_Some (fs1 !! generate_output_path H F index input_path)) →
  (recursion_limit H < length (input_files F))%nat →
  (recursion_limit H < fuel)%nat →
  ∃ st',
    start_conversion B C H F fuel fs = Some (Raised RecursionError st')
    ∧ (current_file_index st' < length (input_files F))%nat
    ∧ attempts (trace st')
      = (fun input_path => Skipped (posixpath.basename input_path))
        <$> take (recursion_limit H) (input_files F)
    ∧ Progress 1 1 MsgAllDone ∉ trace st'.
Proof.
  intros Hpolicy Hsave Hexist Hlong Hfuel.
  eexists. split; [by apply start_conversion_skip_chain|].
  simpl. split_and!; [done|apply skip_lines_attempts|].
  by intros (input_path & Hline & _)%list_elem_of_fmap.
Qed.

(** C9 (the code diverges).  Under the policy to skip, a file whose
    output path exists is not always recorded as skipped.  In a batch
    whose output files all exist, the call for the file at the position
    of the recursion limit raises [RecursionError]: no page has been
    rasterized, but the results have no entry for the file and the
    index stays on it. *)
Theorem skip_beyond_recursion_limit_not_recorded (fuel : nat)
    (fs fs1 : filesystem) (input_path : str) :
  overwrite F = of_string "skip" →
  save_app_settings C F fs = (None, fs1) →
  (∀ index input_path,
     input_files F !! index = Some input_path →
     is_Some (fs1 !! generate_output_path H F index input_path)) →
  input_files F !! recursion_limit H = Some input_path →
  (recursion_limit H < fuel)%nat →
  ∃ st',
    start_conversion B C H F fuel fs = Some (Raised RecursionError st')
    ∧ is_Some (files st'
                 !! generate_output_path H F (recursion_limit H) input_path)
    ∧ input_files F !! current_file_index st' = Some input_path
    ∧ results (trace st') !! current_file_index st' = None
    ∧ rasterized (trace st') = [].
Proof.
  intros Hpolicy Hsave Hexist Hinput Hfuel.
  assert (recursion_limit H < length (input_files F))%nat as Hlong
    by (by eapply lookup_lt_Some).
  eexists. split; [by apply start_conversion_skip_chain|].
  simpl. split_and!; [by apply Hexist|done| |apply skip_lines_rasterized].
  rewrite skip_lines_results. apply lookup_ge_None_2.
  rewrite length_fmap, length_take. lia.
Qed.

(** ** The batch that has room on the stack *)

(** X25.  A batch with a file, with settings that can be saved and with
    fewer files than the interpreter allows nested calls is the batch
    of the specification: [start_conversion] returns, having taken up
    the files one after the other from the first to the last, each
    skipped or converted, and the results have one entry per file. *)
Theorem start_conversion_runs_batch (fuel : nat) (fs fs1 : filesystem) :
  input_files F ≠ [] →
  save_app_settings C F fs = (None, fs1) →
  (length (input_files F) < recursion_limit H)%nat →
  (length (input_files F) < fuel)%nat →
  ∃ dpi st',
    PyStr.int (dpi_value F) = Ok dpi
    ∧ start_conversion B C H F fuel fs = Some (Returned st')
    ∧ st' = batch B H F dpi (input_files F) (State 0 fs1 [])
    ∧ current_file_index st' = length (input_files F)
    ∧ length (results (trace st')) = length (input_files F)
    ∧ last (trace st') = Some (Progress 1 1 MsgAllDone).
Proof.
  intros Hfiles Hsave Hroom Hfuel.
  destruct (start_conversion_batch B C H F fuel fs fs1 Hfiles Hsave Hfuel)
    as (dpi & Hdpi & Hrun); [by left|].
  destruct (batch_spec B H F dpi (input_files F) (State 0 fs1 []))
    as (Hindex & _ & Htrace & _ & Hlength); [done..|].
  exists dpi, (batch B H F dpi (input_files F) (State 0 fs1 [])).
  split_and!; [done..|].
  rewrite Htrace. apply last_snoc.
Qed.

Lemma taken_up_converted (dpi : Z) (inputs : list str) :
  is_ask F = false → is_skip F = false →
  ∀ st,
  attempts (trace (taken_up B H F dpi inputs st))
  = attempts (trace st)
    ++ ((fun input_path => Converted (posixpath.basename input_path))
        <$> inputs).
Proof.
  intros Hask Hskip.
  induction inputs as [|input_path inputs IH]; intros st.
  { by rewrite app_nil_r. }
  rewrite taken_up_cons, IH.
  destruct (take_up_spec B H F dpi input_path st)
    as (new & pages & -> & _ & Hresults & _).
  rewrite skipped_policy in Hresults by done.
  rewrite attempts_app, <- (results_attempts new), Hresults. simpl.
  by rewrite <- (assoc_L (++)).
Qed.

(** X26.  Under a policy that neither asks nor skips, no outcome of a
    file keeps the batch from the files after it: whatever the
    libraries do with each file, [start_conversion] returns with the
    index at the number of files, the pipeline has been started for
    every file of the request, in the order of the request, and the
    last report is that the batch is complete. *)
Theorem batch_converts_every_file (fuel : nat) (fs fs1 : filesystem) :
  overwrite F ≠ of_string "ask" →
  overwrite F ≠ of_string "skip" →
  input_files F ≠ [] →
  save_app_settings C F fs = (None, fs1) →
  (0 < recursion_limit H)%nat →
  (length (input_files F) < fuel)%nat →
  ∃ st',
    start_conversion B C H F fuel fs = Some (Returned st')
    ∧ current_file_index st' = length (input_files F)
    ∧ attempts (trace st')
      = (fun input_path => Converted (posixpath.basename input_path))
        <$> input_files F
    ∧ last (trace st') = Some (Progress 1 1 MsgAllDone).
Proof.
  intros Hnot_ask Hnot_skip Hfiles Hsave Hroom Hfuel.
  destruct (policy_other F Hnot_ask Hnot_skip) as [Hask Hskip].
  destruct (start_conversion_batch B C H F fuel fs fs1 Hfiles Hsave Hfuel)
    as (dpi & Hdpi & Hrun); [by right|].
  destruct (batch_spec B H F dpi (input_files F) (State 0 fs1 []))
    as (Hindex & _ & Htrace & _); [done..|].
  eexists. split_and!; [done..| |].
  - rewrite Htrace, attempts_app, taken_up_converted by done.
    simpl. by rewrite app_nil_r.
  - rewrite Htrace. apply last_snoc.
Qed.



(** The policies under which no existing file is overwritten. *)
Lemma cautious_chain_keeps (fuel depth total : nat) (st : state)
    (r : outcome) (path : str) (content : bytes) :
  (is_ask F = false ∧ is_skip F = true)
  ∨ (is_ask F = true ∧ ∀ index, askyesno H index = false) →
  convert_next_file B H F fuel depth total st = Some r →
  files st !! path = Some content →
  files (state_of r) !! path = Some content.
Proof.
  intros Hpolicy Hrun Hpath.
  apply (batch_invariant B H F
           (fun fs' _ => fs' !! path = Some content)) in Hrun;
    [done| | |done].
  - done.
  - intros index input_path page_range dpi fs1 tr ok fs' new
      Hinput Hmay Hdpi Hconvert Hnew Hinv.
    assert (fs' !! path = Some content) as Hkept; [|done].
    pose proof (convert_pdf_to_bw_elsewhere B input_path
                  (generate_output_path H F index input_path)
                  (threshold_value F) dpi page_range (mode_var F)
                  (compression_var F) fs1 tr path) as Helsewhere.
    rewrite Hconvert in Helsewhere. simpl in Helsewhere.
    rewrite Helsewhere; [done|]. intros ->.
    destruct Hmay as [Hfree|[[Hask Hyes]|[Hask Hskip]]].
    + congruence.
    + destruct Hpolicy as [[? ?]|[_ Hno]]; [congruence|].
      rewrite Hno in Hyes. done.
    + destruct Hpolicy as [[? ?]|[? _]]; congruence.
Qed.

(** X28.  Under the policy to skip, in a batch with fewer files than the
    interpreter allows nested calls, a file whose output file exists
    when the batch starts is skipped, whatever happens to the other
    files: [start_conversion] returns with the index at the number of
    files, the entry of the file in the results says that it was
    skipped and lists no rasterized page, and the output file holds
    what it held. *)
Theorem existing_output_is_skipped (fuel : nat) (fs fs1 : filesystem)
    (index : nat) (input_path : str) :
  overwrite F = of_string "skip" →
  save_app_settings C F fs = (None, fs1) →
  input_files F !! index = Some input_path →
  is_Some (fs1 !! generate_output_path H F index input_path) →
  (length (input_files F) < recursion_limit H)%nat →
  (length (input_files F) < fuel)%nat →
  ∃ st',
    start_conversion B C H F fuel fs = Some (Returned st')
    ∧ current_file_index st' = length (input_files F)
    ∧ results (trace st') !! index
      = Some (Skipped (posixpath.basename input_path), [])
    ∧ files st' !! generate_output_path H F index input_path
      = fs1 !! generate_output_path H F index input_path.
Proof.
  intros [Hask Hskip]%policy_skip Hsave Hinput [content Hexists] Hroom Hfuel.
  assert (input_files F ≠ []) as Hfiles
    by (by intros Hnil; rewrite Hnil in Hinput).
  destruct (start_conversion_batch B C H F fuel fs fs1 Hfiles Hsave Hfuel)
    as (dpi & Hdpi & Hrun); [by left|].
  destruct (batch_spec B H F dpi (input_files F) (State 0 fs1 []))
    as (Hindex & _ & _ & Hresults & _); [done..|].
  destruct (taken_up_lookup B H F dpi (input_files F) (State 0 fs1 [])
              index input_path Hinput)
    as (Hi & Hkeeps & _ & pages & Hlookup & Hpages); [done..|].
  simpl in Hi.
  assert (skipped H F index input_path
            (files (taken_up B H F dpi (take index (input_files F))
                      (State 0 fs1 []))) = true) as Hskipped.
  { unfold skipped.
    destruct (Hkeeps (generate_output_path H F index input_path))
      as [content' ->]; [by simpl; eauto|].
    by rewrite Hask, Hskip. }
  rewrite Hi, Hskipped in Hlookup, Hpages.
  eexists. split_and!; [done|done| |].
  - rewrite Hresults, Hlookup. by rewrite Hpages.
  - rewrite Hexists.
    rewrite (start_conversion_saved fuel fs fs1) in Hrun by done.
    apply (cautious_chain_keeps _ _ _ _ _
             (generate_output_path H F index input_path) content) in Hrun;
      [done|by left|done].
Qed.

(** X20.  A "no" to the question whether to overwrite is a skip.  Under
    the policy to ask, in a batch with fewer files than the interpreter
    allows nested calls, when the output file of a file exists as the
    batch starts and the user answers no, [start_conversion] returns
    with the index at the number of files, the question and its answer
    are in the trace, and the entry of the file in the results says
    that it was skipped and lists no rasterized page. *)
Theorem declined_overwrite_skips (fuel : nat) (fs fs1 : filesystem)
    (index : nat) (input_path : str) :
  overwrite F = of_string "ask" →
  save_app_settings C F fs = (None, fs1) →
  input_files F !! index = Some input_path →
  is_Some (fs1 !! generate_output_path H F index input_path) →
  askyesno H index = false →
  (length (input_files F) < recursion_limit H)%nat →
  (length (input_files F) < fuel)%nat →
  ∃ st',
    start_conversion B C H F fuel fs = Some (Returned st')
    ∧ current_file_index st' = length (input_files F)
    ∧ AskYesNo
        (posixpath.basename (generate_output_path H F index input_path))
        false ∈ trace st'
    ∧ results (trace st') !! index
      = Some (Skipped (posixpath.basename input_path), []).
Proof.
  intros Hask%policy_ask Hsave Hinput Hexists Hanswer Hroom Hfuel.
  assert (input_files F ≠ []) as Hfiles
    by (by intros Hnil; rewrite Hnil in Hinput).
  destruct (start_conversion_batch B C H F fuel fs fs1 Hfiles Hsave Hfuel)
    as (dpi & Hdpi & Hrun); [by left|].
  destruct (batch_spec B H F dpi (input_files F) (State 0 fs1 []))
    as (Hindex & _ & Htrace & Hresults & _); [done..|].
  destruct (taken_up_lookup B H F dpi (input_files F) (State 0 fs1 [])
              index input_path Hinput)
    as (Hi & Hkeeps & Hprefix & pages & Hlookup & Hpages); [done..|].
  simpl in Hi.
  set (st_i := taken_up B H F dpi (take index (input_files F))
                 (State 0 fs1 [])) in *.
  destruct (Hkeeps (generate_output_path H F index input_path))
    as [content Hcontent]; [done|].
  assert (skipped H F index input_path (files st_i) = true) as Hskipped.
  { unfold skipped. by rewrite Hcontent, Hask, Hanswer. }
  rewrite Hi, Hskipped in Hlookup, Hpages.
  eexists. split_and!; [done|done| |].
  - rewrite Htrace. apply elem_of_app. left.
    eapply elem_of_prefix; [|exact Hprefix].
    destruct (take_up_spec B H F dpi input_path st_i)
      as (new & pages' & -> & _ & _ & _ & Hskip & _).
    rewrite Hi, Hskipped in Hskip. destruct Hskip as (_ & _ & ->); [done|].
    unfold asked. rewrite Hcontent, Hask, Hanswer.
    apply elem_of_app. right. by left.
  - rewrite Hresults, Hlookup. by rewrite Hpages.
Qed.

(** ** What a batch writes *)

(** X17.  Apart from the settings file and the files of the logger, a
    batch writes to the output paths of its files and nowhere else,
    however it ends: a path that is none of these holds after the batch
    what it held before. *)
Theorem batch_writes_only_outputs (fuel : nat) (fs : filesystem)
    (r : outcome) (path : str) :
  start_conversion B C H F fuel fs = Some r →
  path ∉ output_paths H F →
  path ≠ SETTINGS_FILE →
  path ∉ log_files →
  files (state_of r) !! path = fs !! path.
Proof.
  intros Hrun Hpath Hsettings _.
  apply (start_conversion_invariant B C H F
           (fun fs' _ => fs' !! path = fs !! path)) in Hrun;
    [done| | |done|by apply save_app_settings_elsewhere].
  - done.
  - intros index input_path page_range dpi fs1 tr ok fs' new
      Hinput _ Hdpi Hconvert _ Hinv.
    assert (fs' !! path = fs !! path) as Hkept; [|done].
    pose proof (convert_pdf_to_bw_elsewhere B input_path
                  (generate_output_path H F index input_path)
                  (threshold_value F) dpi page_range (mode_var F)
                  (compression_var F) fs1 tr path) as Helsewhere.
    rewrite Hconvert in Helsewhere. simpl in Helsewhere.
    rewrite Helsewhere; [done|].
    intros ->. apply Hpath. unfold output_paths.
    apply list_elem_of_lookup. exists index.
    by rewrite list_lookup_imap, Hinput.
Qed.

(** X18.  Under the policy to skip, and under the policy to ask when the
    user declines every time, a batch overwrites no file but the
    settings file and the files of the logger, however it ends: every
    other file that exists before the batch has the same contents after
    it. *)
Theorem cautious_batch_keeps_files (fuel : nat) (fs : filesystem)
    (r : outcome) (path : str) (content : bytes) :
  (is_ask F = false ∧ is_skip F = true)
  ∨ (is_ask F = true ∧ ∀ index, askyesno H index = false) →
  start_conversion B C H F fuel fs = Some r →
  path ≠ SETTINGS_FILE →
  path ∉ log_files →
  fs !! path = Some content →
  files (state_of r) !! path = Some content.
Proof.
  intros Hpolicy Hrun Hsettings _ Hpath.
  unfold start_conversion in Hrun.
  destruct (input_files F) as [|first rest]; [by injection Hrun as <-|].
  pose proof (save_app_settings_elsewhere C F fs path Hsettings) as Hsaved.
  destruct (save_app_settings C F fs) as [[e|] fs1]; simpl in Hsaved.
  - injection Hrun as <-. simpl. by rewrite Hsaved.
  - eapply cautious_chain_keeps; [done..|]. simpl. by rewrite Hsaved.
Qed.

(** X19.  A file is opened after the batch only if the option to open is
    on, it is the output path of a file of the batch, and it exists when
    the batch is over. *)
Theorem opened_files_exist (fuel : nat) (fs : filesystem) (st' : state)
    (path : str) :
  start_conversion B C H F fuel fs = Some (Returned st') →
  OpenFile path ∈ trace st' →
  open_after_var F = true
  ∧ path ∈ output_paths H F
  ∧ is_Some (files st' !! path).
Proof.
  intros Hrun.
  refine (start_conversion_invariant B C H F
            (fun fs' tr' =>
               OpenFile path ∈ tr' →
               open_after_var F = true
               ∧ path ∈ output_paths H F
               ∧ is_Some (fs' !! path)) _ _ fuel fs (Returned st') _ _ Hrun).
  - intros fs1 tr e He Hinv [Hin|Hin%list_elem_of_singleton]%elem_of_app;
      [by apply Hinv|]. by subst e.
  - intros index input_path page_range dpi fs1 tr ok fs' new
      Hinput _ Hdpi Hconvert Hnew Hinv.
    assert (OpenFile path ∈ tr ++ new →
            open_after_var F = true ∧ path ∈ output_paths H F
            ∧ is_Some (fs' !! path)) as Hold.
    { intros [Hin|Hin]%elem_of_app.
      - destruct (Hinv Hin) as (? & ? & Hsome). split_and!; [done..|].
        apply (convert_pdf_to_bw_keeps B input_path
                 (generate_output_path H F index input_path)
                 (threshold_value F) dpi page_range (mode_var F)
                 (compression_var F) fs1 tr) in Hsome.
        by rewrite Hconvert in Hsome.
      - rewrite Forall_forall in Hnew. by apply Hnew in Hin. }
    split; [done|]. intros -> Hafter Hopened.
    apply elem_of_app in Hopened as [Hin|Hin%list_elem_of_singleton];
      [by apply Hold|].
    injection Hin as ->.
    split_and!; [done| |].
    + unfold output_paths. apply list_elem_of_lookup. exists index.
      by rewrite list_lookup_imap, Hinput.
    + apply successful_run_writes_output in Hconvert
        as (bw_images & pdf & _ & _ & ->).
      rewrite lookup_insert_eq. eauto.
  - intros Hin. by apply elem_of_nil in Hin.
  - intros Hin. by apply elem_of_nil in Hin.
Qed.

(** X21.  When the parser raises on the page range, the driver logs the
    error and runs the pipeline without a page range: the pages selected
    are those of the whole document. *)
Theorem unparsable_range_selects_all (input_path : str) (fs : filesystem)
    (doc : document B) (e : exn) :
  PyStr.truthy (PyStr.strip (page_range_entry F)) = true →
  fs !! input_path ≫= fitz_open B = Some doc →
  parse_page_range (PyStr.strip (page_range_entry F)) (page_count B doc)
  = Raise e →
  (analyse_page_range B F input_path fs).2 = [Log MsgRangeError]
  ∧ select_pages (analyse_page_range B F input_path fs).1 (page_count B doc)
    = range 0 (page_count B doc).
Proof.
  intros Hentry Hdoc Hparse. unfold analyse_page_range.
  by rewrite Hentry, Hdoc, Hparse.
Qed.

End DriverClaims.

(** ** Conversion in place *)

Section SlashFacts.
Import PyStr posixpath.
#[local] Arguments Ascii.eqb : simpl never.

Lemma squeeze_app_tail (x t : str) :
  startswith_sep t = false → squeeze (x ++ t) = squeeze x ++ squeeze t.
Proof.
  intros Ht. induction x as [|c x IH]; [done|].
  destruct x as [|c' x]; rewrite <- ?app_comm_cons in *.
  - rewrite app_nil_l. destruct t as [|c' t]; [done|]. simpl in Ht.
    rewrite (squeeze_cons_cons c c' t), Ht, andb_false_r. done.
  - rewrite (squeeze_cons_cons c c' (x ++ t)), (squeeze_cons_cons c c' x), IH.
    by destruct (Ascii.eqb c sep && Ascii.eqb c' sep).
Qed.

Lemma squeeze_nil (x : str) : squeeze x = [] → x = [].
Proof.
  induction x as [|c x IH]; [done|].
  destruct x as [|c' x]; [done|].
  rewrite (squeeze_cons_cons c c' x).
  destruct (Ascii.eqb c sep && Ascii.eqb c' sep); [|done].
  intros Hx. by apply IH in Hx.
Qed.

Lemma squeeze_id (x : str) : double_sep x = false → squeeze x = x.
Proof.
  induction x as [|c x IH]; [done|].
  destruct x as [|c' x]; [done|].
  rewrite (double_sep_cons_cons c c' x), (squeeze_cons_cons c c' x).
  intros [-> Hx]%orb_false_iff. by rewrite IH.
Qed.

Lemma double_sep_app_l (x y : str) :
  double_sep (x ++ y) = false → double_sep x = false.
Proof.
  induction x as [|c x IH]; [done|].
  destruct x as [|c' x]; [done|]. simpl app.
  rewrite (double_sep_cons_cons c c' (x ++ y)), (double_sep_cons_cons c c' x).
  intros [-> Hx]%orb_false_iff. by apply IH.
Qed.

Lemma endswith_sep_cons (c c' : ascii) (x : str) :
  endswith_sep (c :: c' :: x) = endswith_sep (c' :: x).
Proof.
  unfold endswith_sep. simpl.
  destruct (rev x) as [|e r]; simpl; [done|done].
Qed.

Lemma double_sep_snoc (d : str) :
  double_sep d = false → endswith_sep d = false →
  double_sep (d ++ [sep]) = false.
Proof.
  induction d as [|c d IH]; [done|].
  destruct d as [|c' d]; simpl app in *.
  - unfold endswith_sep. simpl. intros _ ->. done.
  - rewrite (double_sep_cons_cons c c' d), endswith_sep_cons.
    rewrite (double_sep_cons_cons c c' (d ++ [sep])).
    intros [-> Hd]%orb_false_iff Hend. by apply IH.
Qed.

Lemma directory_part_spec (p : str) :
  (directory_part p = [] ∧ basename p = p)
  ∨ ∃ h, directory_part p = h ++ [sep] ∧ p = h ++ sep :: basename p
         ∧ sep ∉ basename p.
Proof.
  unfold directory_part, basename.
  destruct (rfind_split sep p) as [[-> Hnot]|(h & t & -> & -> & Hnot)].
  - by left.
  - right. exists h. by rewrite upto_app, from_app.
Qed.

(** Joining a directory that names the directory of a file with the
    name of the file gives the file: the same path up to runs of
    slashes, and the very same string when neither is written with a
    doubled slash. *)
Lemma join_names_directory (d p : str) :
  truthy d = true →
  names_directory_of d p →
  squeeze (join d (basename p)) = squeeze p
  ∧ (double_sep p = false → double_sep d = false →
     join d (basename p) = p).
Proof.
  unfold names_directory_of. intros Hd Hnames.
  destruct (directory_part_spec p) as [[Hpart _]|(h & Hpart & Hp & Hnot)].
  { rewrite Hpart in Hnames. apply squeeze_nil in Hnames. by destruct d. }
  rewrite Hpart in Hnames.
  pose proof (startswith_sep_not_elem _ Hnot) as Hstart.
  unfold join. rewrite Hstart, Hd. simpl.
  assert (squeeze p = squeeze (h ++ [sep]) ++ squeeze (basename p)) as Hsqueeze.
  { rewrite Hp at 1. rewrite (cons_middle sep h), (assoc_L (++)).
    by apply squeeze_app_tail. }
  destruct (endswith_sep d) eqn:Hend.
  - destruct (endswith_sep_inv d Hend) as [d' ->].
    rewrite <- (assoc_L (++)) in Hnames. simpl in Hnames.
    rewrite squeeze_double in Hnames. split.
    + by rewrite squeeze_app_tail, Hnames, Hsqueeze.
    + intros Hplain Hplain'.
      rewrite squeeze_id in Hnames by done.
      rewrite squeeze_id in Hnames.
      * rewrite Hnames, <- (assoc_L (++)). simpl. by rewrite <- Hp.
      * apply (double_sep_app_l _ (basename p)).
        rewrite <- (assoc_L (++)). simpl. by rewrite <- Hp.
  - split.
    + rewrite (cons_middle sep d), (assoc_L (++)).
      by rewrite squeeze_app_tail, Hnames, Hsqueeze.
    + intros Hplain Hplain'.
      rewrite squeeze_id in Hnames by (by apply double_sep_snoc).
      rewrite squeeze_id in Hnames.
      * rewrite (cons_middle sep d), (assoc_L (++)), Hnames.
        rewrite <- (assoc_L (++)). simpl. by rewrite <- Hp.
      * apply (double_sep_app_l _ (basename p)).
        rewrite <- (assoc_L (++)). simpl. by rewrite <- Hp.
Qed.

End SlashFacts.

Section InPlace.
Import PyStr posixpath.
Context (H : host) (F : form).

(** With no suffix and no time stamp, the output path is the output
    directory, or else the input's directory, joined with the input's
    name. *)
Lemma generate_output_path_plain (index : nat) (input_path : str) :
  strip (suffix_entry F) = [] →
  timestamp_var F = false →
  generate_output_path H F index input_path
  = join (if truthy (strip (output_dir_entry F))
          then strip (output_dir_entry F) else dirname input_path)
      (basename input_path).
Proof.
  intros Hsuffix Hstamp. unfold generate_output_path.
  rewrite Hsuffix, Hstamp. simpl.
  pose proof (splitext_app (basename input_path)) as Hext.
  destruct (splitext (basename input_path)) as [base ext]. simpl in Hext.
  by rewrite Hext.
Qed.

Lemma in_place_output_path (index : nat) (input_path : str) :
  in_place F input_path →
  squeeze (generate_output_path H F index input_path) = squeeze input_path
  ∧ (double_sep input_path = false →
     double_sep (strip (output_dir_entry F)) = false →
     generate_output_path H F index input_path = input_path).
Proof.
  intros (Hdir & Hsuffix & Hstamp).
  rewrite generate_output_path_plain by done.
  destruct (truthy (strip (output_dir_entry F))) eqn:Htruthy.
  - destruct Hdir as [Hblank|Hnames];
      [by rewrite Hblank in Htruthy|].
    by apply join_names_directory.
  - destruct (join_dirname_basename input_path) as [Hsame Hplain].
    split; [done|]. intros Hp _. by apply Hplain.
Qed.

(** C10.  With the output directory blank or the input's own, the suffix
    blank and the time stamp off, the output path is the input path: it
    names the same file, the two paths being equal once runs of slashes
    are read as one; it is the same string when neither the input path
    nor the output directory is written with a doubled slash, as the
    file dialogs return them; and then, under the policy to overwrite,
    the conversion writes over its input.  In a batch that is at this
    file, with room for the call on the stack and no later file written
    to the same path, the chain of calls returns, and the input file
    holds what the pipeline, run on the input with the input as its
    destination, has left there: the document assembled from its own
    pages, or nothing when the assembly failed; it holds what it held
    only when no page was encoded or it could not be opened for
    writing. *)
Theorem output_path_is_input_path (index : nat) (input_path : str) :
  in_place F input_path →
  squeeze (generate_output_path H F index input_path) = squeeze input_path
  ∧ (double_sep input_path = false →
     double_sep (strip (output_dir_entry F)) = false →
     generate_output_path H F index input_path = input_path
     ∧ ∀ (B : backend) (fuel depth : nat) (st : state) (dpi : Z),
         current_file_index st = index →
         input_files F !! index = Some input_path →
         overwrite F = of_string "overwrite" →
         PyStr.int (dpi_value F) = Ok dpi →
         (depth < recursion_limit H)%nat →
         (length (input_files F) - index < fuel)%nat →
         (∀ later other,
            (index < later)%nat →
            input_files F !! later = Some other →
            generate_output_path H F later other ≠ input_path) →
         ∃ st',
           convert_next_file B H F fuel depth (length (input_files F)) st
           = Some (Returned st')
           ∧ current_file_index st' = length (input_files F)
           ∧ files st' !! input_path
             = match encoded_pages B input_path (threshold_value F) dpi
                       (analyse_page_range B F input_path (files st)).1
                       (mode_var F) (compression_var F) (files st) with
               | Some bw_images =>
                   if can_open_wb B input_path
                   then Some (default [] (img2pdf_convert B bw_images))
                   else files st !! input_path
               | None => files st !! input_path
               end).
Proof.
  intros Hin_place.
  destruct (in_place_output_path index input_path Hin_place)
    as [Hsame Hplain].
  split; [done|]. intros Hp Hd. specialize (Hplain Hp Hd).
  split; [done|].
  intros B fuel depth st dpi Hindex Hinput Hpolicy Hdpi Hdepth Hfuel Hlater.
  subst index.
  assert (overwrite F ≠ of_string "ask" ∧ overwrite F ≠ of_string "skip")
    as [Hnot_ask Hnot_skip] by (by rewrite Hpolicy).
  destruct (policy_other F Hnot_ask Hnot_skip) as [Hask Hskip].
  assert (current_file_index st < length (input_files F))%nat as Hlt
    by (by eapply lookup_lt_Some).
  eexists. split.
  { apply (convert_next_file_batch B H F dpi Hdpi); [lia|lia|].
    right. by split_and!. }
  rewrite (drop_S _ _ _ Hinput), batch_cons.
  unfold batch. simpl.
  rewrite taken_up_index, take_up_index, length_drop.
  split; [lia|].
  rewrite taken_up_elsewhere.
  - unfold take_up. rewrite skipped_policy by done. rewrite Hplain.
    destruct (analyse_page_range B F input_path (files st))
      as [page_range log]. simpl.
    pose proof (convert_pdf_to_bw_files B input_path input_path
                  (threshold_value F) dpi page_range (mode_var F)
                  (compression_var F) (files st)
                  ((trace st
                    ++ asked H F (current_file_index st) input_path
                         (files st)) ++ log)) as Hfiles.
    destruct (convert_pdf_to_bw _ _ _ _ _ _ _ _ _ _) as [[ok fs'] tr'].
    simpl in Hfiles. simpl.
    destruct (encoded_pages _ _ _ _ _ _ _ _) as [bw_images|];
      [|by injection Hfiles as _ ->].
    destruct (can_open_wb B input_path); [|by injection Hfiles as _ ->].
    destruct (img2pdf_convert B bw_images) as [pdf|];
      injection Hfiles as _ ->; by rewrite lookup_insert_eq.
  - intros k other Hother. rewrite take_up_index.
    rewrite lookup_drop in Hother.
    replace (S (current_file_index st) + k)%nat
      with (S (current_file_index st + k))%nat by lia.
    apply Hlater; [lia|].
    by replace (S (current_file_index st + k))%nat
      with (S (current_file_index st) + k)%nat by lia.
Qed.

End InPlace.

Section Resolution.
Import PyStr.
#[local] Arguments Ascii.eqb : simpl never.
#[local] Arguments isspace : simpl never.

Lemma digits_no_digit (acc : Z) (s : str) :
  Forall (fun c => isdigit c = false) s → digits acc false s = None.
Proof.
  intros Hs. destruct Hs as [|c s Hc _]; [done|].
  simpl. rewrite Hc. by destruct (Ascii.eqb c "_").
Qed.

Lemma int_no_digit (s : str) :
  Forall (fun c => isdigit c = false) s → int s = Raise ValueError.
Proof.
  intros Hs. unfold int.
  assert (Forall (fun c => isdigit c = false) (strip s)) as Hstrip.
  { rewrite Forall_forall in Hs. apply Forall_forall.
    intros c Hc. by apply Hs, elem_of_strip. }
  assert (literal (strip s) = None) as ->; [|done].
  unfold literal. destruct Hstrip as [|c s' Hc Hs'];
    [done|].
  pose proof (digits_no_digit 0 s' Hs') as Hrest.
  pose proof (digits_no_digit 0 (c :: s') (Forall_cons_2 _ _ _ Hc Hs'))
    as Hall.
  destruct c as [[] [] [] [] [] [] [] []]; try exact Hall;
    by rewrite Hrest.
Qed.

End Resolution.

Section ResolutionClaims.
Context (B : backend) (C : json_codec) (H : host) (F : form).

(** X29.  A resolution without a digit stops the batch before it
    starts: [save_app_settings] raises [ValueError] out of
    [start_conversion], the settings file is not written, and no file is
    taken up. *)
Theorem resolution_without_digit_stops_batch (fuel : nat)
    (fs : filesystem) :
  input_files F ≠ [] →
  Forall (fun c => PyStr.isdigit c = false) (dpi_value F) →
  start_conversion B C H F fuel fs
  = Some (Raised ValueError (State 0 fs [])).
Proof.
  intros Hfiles Hdpi. unfold start_conversion, save_app_settings.
  rewrite (int_no_digit _ Hdpi). by destruct (input_files F).
Qed.

End ResolutionClaims.

(** ** Batches of the small instances *)

(** The output files of a batch exist when a look at each of them finds
    one. *)
Lemma outputs_exist (H : host) (F : form) (fs : filesystem) :
  all_exist fs (output_paths H F) = true →
  ∀ index input_path,
    input_files F !! index = Some input_path →
    is_Some (fs !! generate_output_path H F index input_path).
Proof.
  intros Hall index input_path Hinput.
  unfold all_exist in Hall. rewrite forallb_forall in Hall.
  eapply bool_decide_eq_true_1, Hall, list_elem_of_In.
  unfold output_paths. apply list_elem_of_lookup. exists index.
  by rewrite list_lookup_imap, Hinput.
Qed.

Lemma long_skip_chain_stops_batch_witness :
  ∃ st',
    start_conversion (byte_document true) (one_byte_codec default_settings)
      quiet_host (numbered_form "skip" 1001) 1001 (numbered_files 1001)
    = Some (Raised RecursionError st')
    ∧ (current_file_index st'
       < length (input_files (numbered_form "skip" 1001)))%nat
    ∧ attempts (trace st')
      = (fun input_path => Skipped (posixpath.basename input_path))
        <$> take (recursion_limit quiet_host)
              (input_files (numbered_form "skip" 1001))
    ∧ Progress 1 1 MsgAllDone ∉ trace st'.
Proof.
  apply (long_skip_chain_stops_batch (byte_document true)
           (one_byte_codec default_settings) quiet_host
           (numbered_form "skip" 1001) 1001 (numbered_files 1001)
           (<[SETTINGS_FILE := [Byte.x7b]]> (numbered_files 1001))).
  - reflexivity.
  - reflexivity.
  - apply outputs_exist. vm_compute. reflexivity.
  - apply Nat.ltb_lt. vm_compute. reflexivity.
  - apply Nat.ltb_lt. vm_compute. reflexivity.
Defined.

Lemma skip_beyond_recursion_limit_not_recorded_witness :
  ∃ st',
    start_conversion (byte_document true) (one_byte_codec default_settings)
      quiet_host (numbered_form "skip" 1001) 1001 (numbered_files 1001)
    = Some (Raised RecursionError st')
    ∧ is_Some (files st'
                 !! generate_output_path quiet_host
                      (numbered_form "skip" 1001)
                      (recursion_limit quiet_host) "/scans/1000.pdf")
    ∧ input_files (numbered_form "skip" 1001) !! current_file_index st'
      = Some (of_string "/scans/1000.pdf")
    ∧ results (trace st') !! current_file_index st' = None
    ∧ rasterized (trace st') = [].
Proof.
  apply (skip_beyond_recursion_limit_not_recorded (byte_document true)
           (one_byte_codec default_settings) quiet_host
           (numbered_form "skip" 1001) 1001 (numbered_files 1001)
           (<[SETTINGS_FILE := [Byte.x7b]]> (numbered_files 1001))
           "/scans/1000.pdf").
  - reflexivity.
  - reflexivity.
  - apply outputs_exist. vm_compute. reflexivity.
  - vm_compute. reflexivity.
  - apply Nat.ltb_lt. vm_compute. reflexivity.
Defined.

Lemma output_path_is_input_path_witness :
  generate_output_path quiet_host (home_form "overwrite") 0
    "/home/u/scan.pdf"
  = of_string "/home/u/scan.pdf"
  ∧ ∃ st',
      convert_next_file (byte_document true) quiet_host
        (home_form "overwrite") 2 0 1 (State 0 home_files [])
      = Some (Returned st')
      ∧ current_file_index st' = 1%nat
      ∧ files st' !! of_string "/home/u/scan.pdf"
        = Some [Byte.x00; Byte.xff].
Proof.
  assert (in_place (home_form "overwrite") "/home/u/scan.pdf") as Hin_place.
  { split_and!; [right|..]; by vm_compute. }
  destruct (output_path_is_input_path quiet_host (home_form "overwrite") 0
              "/home/u/scan.pdf" Hin_place) as [_ Hplain].
  destruct (Hplain eq_refl eq_refl) as [Hsame Hover].
  split; [exact Hsame|].
  destruct (Hover (byte_document true) 2%nat 0%nat (State 0 home_files [])
              300) as (st' & Hrun & Hindex & Hfiles).
  - reflexivity.
  - reflexivity.
  - reflexivity.
  - reflexivity.
  - simpl. lia.
  - simpl. lia.
  - intros later other Hlater Hother. destruct later; [lia|done].
  - exists st'. split_and!; [exact Hrun|exact Hindex|].
    rewrite Hfiles. vm_compute. reflexivity.
Defined.

Lemma start_conversion_runs_batch_witness :
  let F :=
    in_place_form "overwrite"
      [of_string "in.pdf"; of_string "gone.pdf"; of_string "out.pdf"] in
  ∃ dpi st',
    PyStr.int (dpi_value F) = Ok dpi
    ∧ start_conversion (byte_document true)
        (one_byte_codec default_settings) quiet_host F 4 two_files
      = Some (Returned st')
    ∧ st' = batch (byte_document true) quiet_host F dpi (input_files F)
              (State 0 (<[SETTINGS_FILE := [Byte.x7b]]> two_files) [])
    ∧ current_file_index st' = length (input_files F)
    ∧ length (results (trace st')) = length (input_files F)
    ∧ last (trace st') = Some (Progress 1 1 MsgAllDone).
Proof.
  apply (start_conversion_runs_batch (byte_document true)
           (one_byte_codec default_settings) quiet_host
           (in_place_form "overwrite"
              [of_string "in.pdf"; of_string "gone.pdf"; of_string "out.pdf"])
           4 two_files (<[SETTINGS_FILE := [Byte.x7b]]> two_files)).
  - done.
  - reflexivity.
  - simpl. lia.
  - simpl. lia.
Defined.

Lemma batch_converts_every_file_witness :
  let F :=
    in_place_form "overwrite"
      [of_string "in.pdf"; of_string "gone.pdf"; of_string "out.pdf"] in
  ∃ st',
    start_conversion (byte_document false)
      (one_byte_codec default_settings) quiet_host F 4 two_files
    = Some (Returned st')
    ∧ current_file_index st' = length (input_files F)
    ∧ attempts (trace st')
      = (fun input_path => Converted (posixpath.basename input_path))
        <$> input_files F
    ∧ last (trace st') = Some (Progress 1 1 MsgAllDone).
Proof.
  apply (batch_converts_every_file (byte_document false)
           (one_byte_codec default_settings) quiet_host
           (in_place_form "overwrite"
              [of_string "in.pdf"; of_string "gone.pdf"; of_string "out.pdf"])
           4 two_files (<[SETTINGS_FILE := [Byte.x7b]]> two_files)).
  - vm_compute. discriminate.
  - vm_compute. discriminate.
  - done.
  - reflexivity.
  - simpl. lia.
  - simpl. lia.
Defined.


Lemma existing_output_is_skipped_witness :
  let F :=
    in_place_form "skip" [of_string "gone.pdf"; of_string "in.pdf"] in
  ∃ st',
    start_conversion (byte_document true)
      (one_byte_codec default_settings) quiet_host F 3 two_files
    = Some (Returned st')
    ∧ current_file_index st' = length (input_files F)
    ∧ results (trace st') !! 1%nat
      = Some (Skipped (posixpath.basename "in.pdf"), [])
    ∧ files st' !! generate_output_path quiet_host F 1 "in.pdf"
      = <[SETTINGS_FILE := [Byte.x7b]]> two_files
          !! generate_output_path quiet_host F 1 "in.pdf".
Proof.
  apply (existing_output_is_skipped (byte_document true)
           (one_byte_codec default_settings) quiet_host
           (in_place_form "skip" [of_string "gone.pdf"; of_string "in.pdf"])
           3 two_files (<[SETTINGS_FILE := [Byte.x7b]]> two_files) 1
           "in.pdf").
  - reflexivity.
  - reflexivity.
  - reflexivity.
  - vm_compute. eauto.
  - simpl. lia.
  - simpl. lia.
Defined.

Lemma declined_overwrite_skips_witness :
  let F := archive_form "1-2" [of_string "in.pdf"] in
  ∃ st',
    start_conversion (byte_document true)
      (one_byte_codec default_settings) quiet_host F 2 archive_files
    = Some (Returned st')
    ∧ current_file_index st' = length (input_files F)
    ∧ AskYesNo
        (posixpath.basename (generate_output_path quiet_host F 0 "in.pdf"))
        false ∈ trace st'
    ∧ results (trace st') !! 0%nat
      = Some (Skipped (posixpath.basename "in.pdf"), []).
Proof.
  apply (declined_overwrite_skips (byte_document true)
           (one_byte_codec default_settings) quiet_host
           (archive_form "1-2" [of_string "in.pdf"]) 2 archive_files
           (<[SETTINGS_FILE := [Byte.x7b]]> archive_files) 0 "in.pdf").
  - reflexivity.
  - reflexivity.
  - reflexivity.
  - vm_compute. eauto.
  - reflexivity.
  - simpl. lia.
  - simpl. lia.
Defined.

Lemma batch_writes_only_outputs_witness :
  files (final_state
           (start_conversion (byte_document true)
              (one_byte_codec default_settings) quiet_host
              (in_place_form "overwrite" [of_string "in.pdf"]) 2 two_files))
    !! of_string "out.pdf"
  = two_files !! of_string "out.pdf".
Proof.
  apply (batch_writes_only_outputs (byte_document true)
           (one_byte_codec default_settings) quiet_host
           (in_place_form "overwrite" [of_string "in.pdf"]) 2 two_files
           (Returned
              (final_state
                 (start_conversion (byte_document true)
                    (one_byte_codec default_settings) quiet_host
                    (in_place_form "overwrite" [of_string "in.pdf"]) 2
                    two_files)))).
  - vm_compute. reflexivity.
  - apply (bool_decide_unpack _). vm_compute. exact I.
  - vm_compute. discriminate.
  - apply (bool_decide_unpack _). vm_compute. exact I.
Defined.

Lemma cautious_batch_keeps_files_witness :
  files (final_state
           (start_conversion (byte_document true)
              (one_byte_codec default_settings) quiet_host
              (in_place_form "skip" [of_string "in.pdf"; of_string "out.pdf"])
              3 two_files))
    !! of_string "in.pdf"
  = Some [Byte.x10; Byte.xc8].
Proof.
  apply (cautious_batch_keeps_files (byte_document true)
           (one_byte_codec default_settings) quiet_host
           (in_place_form "skip" [of_string "in.pdf"; of_string "out.pdf"])
           3 two_files
           (Returned
              (final_state
                 (start_conversion (byte_document true)
                    (one_byte_codec default_settings) quiet_host
                    (in_place_form "skip"
                       [of_string "in.pdf"; of_string "out.pdf"])
                    3 two_files)))).
  - left. split; reflexivity.
  - vm_compute. reflexivity.
  - vm_compute. discriminate.
  - apply (bool_decide_unpack _). vm_compute. exact I.
  - vm_compute. reflexivity.
Defined.

Lemma opened_files_exist_witness :
  open_after_var (archive_form "1-2" [of_string "in.pdf"]) = true
  ∧ of_string "/archive/in_SW_20240101_120000.pdf"
    ∈ output_paths quiet_host (archive_form "1-2" [of_string "in.pdf"])
  ∧ is_Some
      (files (final_state
                (start_conversion (byte_document true)
                   (one_byte_codec default_settings) quiet_host
                   (archive_form "1-2" [of_string "in.pdf"]) 2 two_files))
         !! of_string "/archive/in_SW_20240101_120000.pdf").
Proof.
  apply (opened_files_exist (byte_document true)
           (one_byte_codec default_settings) quiet_host
           (archive_form "1-2" [of_string "in.pdf"]) 2 two_files).
  - vm_compute. reflexivity.
  - vm_compute. repeat (first [by left|right]).
Defined.

Lemma unparsable_range_selects_all_witness :
  (analyse_page_range (byte_document true)
     (archive_form "a-3" [of_string "in.pdf"]) "in.pdf" two_files).2
  = [Log MsgRangeError]
  ∧ select_pages
      (analyse_page_range (byte_document true)
         (archive_form "a-3" [of_string "in.pdf"]) "in.pdf" two_files).1
      (page_count (byte_document true) [Byte.x10; Byte.xc8])
    = range 0 (page_count (byte_document true) [Byte.x10; Byte.xc8]).
Proof.
  apply (unparsable_range_selects_all (byte_document true)
           (archive_form "a-3" [of_string "in.pdf"]) "in.pdf" two_files
           [Byte.x10; Byte.xc8] ValueError).
  - reflexivity.
  - vm_compute. reflexivity.
  - vm_compute. reflexivity.
Defined.

Lemma resolution_without_digit_stops_batch_witness :
  start_conversion (byte_document true) (one_byte_codec default_settings)
    quiet_host
    (Form [of_string "in.pdf"] [] [] false [] "ask" "bw" 180 " dpi" 95 true
       default_settings)
    2 two_files
  = Some (Raised ValueError (State 0 two_files [])).
Proof.
  apply (resolution_without_digit_stops_batch (byte_document true)
           (one_byte_codec default_settings) quiet_host
           (Form [of_string "in.pdf"] [] [] false [] "ask" "bw" 180 " dpi"
              95 true default_settings)
           2 two_files).
  - done.
  - repeat constructor.
Defined.

(** * The settings file *)

Section SettingsFacts.
Context (C : json_codec).

Lemma add_defaults_object (items : list (str * value)) :
  ∀ settings : gmap str value,
    add_defaults (JObject settings) items
    = Some (JObject (settings ∪ list_to_map items)).
Proof.
  induction items as [|[key default_value] items IH]; intros settings; simpl.
  - by rewrite (right_id_L ∅ (∪)).
  - destruct (settings !! key) as [v|] eqn:Hkey; simpl; rewrite IH;
      do 2 f_equal; apply map_eq; intros k; rewrite !lookup_union.
    + destruct (decide (key = k)) as [<-|Hne].
      * rewrite Hkey, lookup_insert_eq.
        by destruct (list_to_map items !! key).
      * by rewrite lookup_insert_ne.
    + destruct (decide (key = k)) as [<-|Hne].
      * rewrite Hkey, !lookup_insert_eq.
        by destruct (list_to_map items !! key).
      * by rewrite !lookup_insert_ne.
Qed.

Lemma load_settings_of_object (fs : filesystem) (content : bytes)
    (settings : gmap str value) :
  fs !! SETTINGS_FILE = Some content →
  json_load C content = Some (JObject settings) →
  load_settings C fs = JObject (settings ∪ default_settings).
Proof.
  intros Hfile Hload. unfold load_settings. rewrite Hfile, Hload.
  change (Some (JObject settings)
            ≫= fun settings => add_defaults settings DEFAULT_SETTINGS)
    with (add_defaults (JObject settings) DEFAULT_SETTINGS).
  by rewrite add_defaults_object.
Qed.

(** X22.  When the settings file holds an object, the loaded settings
    are that object completed from the defaults: a key of the file keeps
    the value of the file, and every other key has its default value. *)
Theorem load_settings_completes (fs : filesystem) (content : bytes)
    (settings : gmap str value) :
  fs !! SETTINGS_FILE = Some content →
  json_load C content = Some (JObject settings) →
  ∃ loaded,
    load_settings C fs = JObject loaded
    ∧ ∀ key,
        loaded !! key
        = match settings !! key with
          | Some v => Some v
          | None => default_settings !! key
          end.
Proof.
  intros Hfile Hload. exists (settings ∪ default_settings). split.
  - by apply load_settings_of_object with content.
  - intros key. rewrite lookup_union.
    destruct (settings !! key), (default_settings !! key); done.
Qed.

(** X23.  When there is no settings file, or [json.load] raises on it,
    or it holds a number, a boolean or null, the loaded settings are the
    defaults. *)
Theorem load_settings_falls_back (fs : filesystem) :
  fs !! SETTINGS_FILE ≫= json_load C = None
  ∨ fs !! SETTINGS_FILE ≫= json_load C = Some JScalar →
  load_settings C fs = JObject default_settings.
Proof.
  unfold load_settings.
  destruct (fs !! SETTINGS_FILE) as [content|]; simpl; [|done].
  by intros [->| ->].
Qed.

(** X24.  Settings that are saved are loaded again: after a
    [save_settings] that returns normally, with a [json.load] that reads
    back what [json.dump] wrote, [load_settings] gives the saved settings
    themselves, provided they hold every default key, as the settings of
    the program do. *)
Theorem save_then_load (settings : gmap str value) (fs fs' : filesystem) :
  save_settings C settings fs = (true, fs') →
  json_load C (json_dump C settings).1 = Some (JObject settings) →
  Forall (fun item => is_Some (settings !! item.1)) DEFAULT_SETTINGS →
  load_settings C fs' = JObject settings.
Proof.
  unfold save_settings. intros Hsave Hround Hkeys.
  destruct (settings_writable C); [|done].
  destruct (json_dump C settings) as [written ok]. simpl in Hround.
  injection Hsave as -> <-.
  rewrite (load_settings_of_object _ written settings)
    by (apply lookup_insert_eq || done).
  f_equal. apply map_eq. intros key. rewrite lookup_union.
  destruct (settings !! key) eqn:Hkey;
    [by destruct (default_settings !! key)|].
  destruct (default_settings !! key) as [default_value|] eqn:Hdefault;
    [|done].
  apply elem_of_list_to_map_2 in Hdefault.
  rewrite Forall_forall in Hkeys. apply Hkeys in Hdefault as [saved Hsaved].
  simpl in Hsaved. congruence.
Qed.

End SettingsFacts.

Lemma load_settings_completes_witness :
  ∃ loaded,
    load_settings (one_byte_codec {[ of_string "dpi" := VInt 150 ]})
      {[ SETTINGS_FILE := [Byte.x7b] ]} = JObject loaded
    ∧ ∀ key,
        loaded !! key
        = match ({[ of_string "dpi" := VInt 150 ]} : gmap str value) !! key with
          | Some v => Some v
          | None => default_settings !! key
          end.
Proof.
  apply (load_settings_completes
           (one_byte_codec {[ of_string "dpi" := VInt 150 ]})
           {[ SETTINGS_FILE := [Byte.x7b] ]} [Byte.x7b]).
  - vm_compute. reflexivity.
  - reflexivity.
Defined.

Lemma load_settings_falls_back_witness :
  load_settings (one_byte_codec ∅) two_files = JObject default_settings.
Proof.
  apply (load_settings_falls_back (one_byte_codec ∅) two_files).
  left. vm_compute. reflexivity.
Defined.

Lemma save_then_load_witness :
  load_settings
    (one_byte_codec (<[of_string "dpi" := VInt 150]> default_settings))
    (<[SETTINGS_FILE := [Byte.x7b]]> two_files)
  = JObject (<[of_string "dpi" := VInt 150]> default_settings).
Proof.
  apply (save_then_load
           (one_byte_codec (<[of_string "dpi" := VInt 150]> default_settings))
           (<[of_string "dpi" := VInt 150]> default_settings) two_files).
  - reflexivity.
  - reflexivity.
  - repeat constructor; vm_compute; eauto.
Defined.

